(** * BME688 air-quality pipeline (M5Stack CoreS3 + ENV Pro, BSEC2 variant)

    A shallow embedding of the BSEC2 program of [src/main.cpp]: unit
    normalisation, the baseline tracker, the simple VOC index and its
    classification, the display selection and the periodic state save.

    Data follow the target (ESP32-S3): [float] is IEEE 754 binary32, modelled
    by [spec_float] at precision 24 and exponent bound 128; [unsigned long]
    and [uint32_t] are 32-bit, modelled as [Z] with the wrap-around of
    unsigned subtraction written out; [uint8_t] is a [Z] in [0, 256). *)

From Stdlib Require Import ZArith List Bool String Lia.
From Stdlib Require Import Floats.SpecFloat.
From Stdlib Require Import Reals Lra.
Import ListNotations.

Local Open Scope Z_scope.

(** ** binary32 arithmetic *)

Module F32.

Definition prec : Z := 24.
Definition emax : Z := 128.

Definition float := spec_float.

Definition NAN : float := S754_nan.
Definition INFINITY : float := S754_infinity false.

Definition isnan (x : float) : bool :=
  match x with S754_nan => true | _ => false end.

Definition sub : float -> float -> float := SFsub prec emax.
Definition mul : float -> float -> float := SFmul prec emax.
Definition div : float -> float -> float := SFdiv prec emax.

(** The C comparisons: all are false as soon as one side is NaN. *)
Definition ltb (x y : float) : bool := SFltb x y.
Definition leb (x y : float) : bool := SFleb x y.
Definition gtb (x y : float) : bool := SFltb y x.
Definition geb (x y : float) : bool := SFleb y x.

(** Conversion of an integer constant, round to nearest even. *)
Definition of_Z (z : Z) : float := binary_normalize prec emax z 0 false.

(** A decimal literal [n / 10^k], correctly rounded. *)
Definition of_ratio (n d : Z) : float := div (of_Z n) (of_Z d).

Definition valid (x : float) : bool := valid_binary prec emax x.

Definition is_zero (x : float) : bool :=
  match x with S754_zero _ => true | _ => false end.

End F32.

Definition float : Type := F32.float.

(** ** 32-bit unsigned time stamps *)

Definition u32 (z : Z) : Z := z mod 2 ^ 32.

(** [a - b] on [unsigned long]. *)
Definition usub (a b : Z) : Z := u32 (a - b).

(** ** Constants of the program *)

Definition UPDATE_INTERVAL_MS : Z := 5000.
Definition STATE_SAVE_INTERVAL_MS : Z := 10 * 60 * 1000.
Definition BASELINE_DELAY_MS : Z := 2 * 60 * 1000.
Definition WINDOW_UPDATE_INTERVAL_MS : Z := 30 * 1000.

(** The literal [5UL * 60UL * 1000UL] of the periodic save in [loop]. *)
Definition SAVE_PERIOD_MS : Z := 5 * 60 * 1000.

Definition gSeaLevelPressure : float := F32.of_ratio 101325 100.

Definition f0 : float := S754_zero false.
Definition f1 : float := F32.of_Z 1.
Definition f2 : float := F32.of_Z 2.
Definition f10 : float := F32.of_Z 10.
Definition f25 : float := F32.of_Z 25.
Definition f50 : float := F32.of_Z 50.
Definition f100 : float := F32.of_Z 100.
Definition f1000 : float := F32.of_Z 1000.
Definition f5000 : float := F32.of_Z 5000.
Definition f44330 : float := F32.of_Z 44330.
Definition f0_1903 : float := F32.of_ratio 1903 10000.

(** ** Data *)

(** One BSEC output: [signal] and [accuracy] of [bsecData]. *)
Record bsecData := {
  signal : float;
  accuracy : Z
}.

Record SensorValues := {
  temperature : float;
  humidity : float;
  pressure_hPa : float;
  gas_kOhm : float;
  altitude_m : float;
  iaq : float;
  iaqAccuracy : Z;
  co2eq : float;
  vocEq : float;
  readMs : Z;
  simpleVocIndex : float;
  gasBaseline_kOhm : float;
  gasMinWindow_kOhm : float
}.

(** The globals of the simple VOC index. *)
Record Baseline := {
  baselineEstablished : bool;
  gasBaseline : float;
  gasMinWindow : float;
  lastWindowUpdate : Z
}.

(** All the mutable globals and function statics of the program. *)
Record Globals := {
  lastUpdate : Z;
  lastStateSave : Z;
  uiDrawn : bool;
  baseline : Baseline;
  pressureDebugPrinted : bool;
  warnedOnce : bool
}.

Definition initial_baseline : Baseline :=
  {| baselineEstablished := false;
     gasBaseline := F32.NAN;
     gasMinWindow := F32.NAN;
     lastWindowUpdate := 0 |}.

Definition initial_globals : Globals :=
  {| lastUpdate := 0;
     lastStateSave := 0;
     uiDrawn := false;
     baseline := initial_baseline;
     pressureDebugPrinted := false;
     warnedOnce := false |}.

Definition set_lastUpdate (v : Z) (g : Globals) : Globals :=
  {| lastUpdate := v;
     lastStateSave := lastStateSave g;
     uiDrawn := uiDrawn g;
     baseline := baseline g;
     pressureDebugPrinted := pressureDebugPrinted g;
     warnedOnce := warnedOnce g |}.

Definition set_warnedOnce (v : bool) (g : Globals) : Globals :=
  {| lastUpdate := lastUpdate g;
     lastStateSave := lastStateSave g;
     uiDrawn := uiDrawn g;
     baseline := baseline g;
     pressureDebugPrinted := pressureDebugPrinted g;
     warnedOnce := v |}.

(** ** The simple VOC index *)

(** [computeSimpleVocIndex]: the returned index, and the globals after the
    call (only [gasMinWindow] can change). *)
Definition computeSimpleVocIndex (gasCurrent : float) (b : Baseline)
  : float * Baseline :=
  if negb (baselineEstablished b) || F32.isnan (gasBaseline b)
     || F32.leb (gasBaseline b) f0
  then (F32.NAN, b)
  else
    let w1 := if F32.isnan (gasMinWindow b) then gasCurrent else gasMinWindow b in
    let w2 := if F32.ltb gasCurrent w1 then gasCurrent else w1 in
    let delta := F32.sub (gasBaseline b) gasCurrent in
    let index := F32.mul (F32.div delta (gasBaseline b)) f100 in
    let index := if F32.ltb index f0 then f0 else index in
    (index,
     {| baselineEstablished := baselineEstablished b;
        gasBaseline := gasBaseline b;
        gasMinWindow := w2;
        lastWindowUpdate := lastWindowUpdate b |}).

(** The six texts [classifySimpleVoc] returns, as an enumeration. *)
Inductive Label := Building | Excellent | Normal | Elevated | Poor | Severe.

Definition label_text (l : Label) : string :=
  match l with
  | Building => "建立中"
  | Excellent => "优"
  | Normal => "正常"
  | Elevated => "偏差"
  | Poor => "差"
  | Severe => "严重"
  end.

Definition classifyLabel (index : float) : Label :=
  if F32.isnan index then Building
  else if F32.ltb index f2 then Excellent
  else if F32.ltb index f10 then Normal
  else if F32.ltb index f25 then Elevated
  else if F32.ltb index f50 then Poor
  else Severe.

Definition classifySimpleVoc (index : float) : string :=
  label_text (classifyLabel index).

(** ** Unit normalisation *)

(** The pressure branch of [loop]: above 5000 the raw value is taken as Pa. *)
Definition normalizePressure (rawPress : float) : float :=
  if F32.gtb rawPress f5000 then F32.div rawPress f100 else rawPress.

(** [dGas.signal / 1000.0f]. *)
Definition normalizeGas (rawGas : float) : float := F32.div rawGas f1000.

(** ** Display selection and persistence *)

(** What the bottom-right info line of [updateDynamicUI] shows. *)
Inductive SelectedMetric :=
| Fallback (index : float) (label : string)
| Vendor (iaqValue : float) (iaqAcc : Z).

Definition updateDynamicUI (vals : SensorValues) : SelectedMetric :=
  if iaqAccuracy vals <? 2
  then Fallback (simpleVocIndex vals) (classifySimpleVoc (simpleVocIndex vals))
  else Vendor (iaq vals) (iaqAccuracy vals).

Definition is_fallback (m : SelectedMetric) : bool :=
  match m with Fallback _ _ => true | Vendor _ _ => false end.

(** [saveState]: the blob is written only when [envSensor.getState]
    succeeds; the function returns nothing to its caller. *)
Definition saveState (getStateOk : bool) : bool := getStateOk.

(** ** One pass of [loop] *)

(** What the environment provides during one pass: the buttons, [millis()],
    the sensor library's answers and the outcome of the library calls. *)
Record LoopInput := {
  btnA : bool;
  btnB : bool;
  btnC : bool;
  now : Z;
  got : bool;
  tRead : Z;
  dTemp : bsecData;
  dHum : bsecData;
  dPress : bsecData;
  dGas : bsecData;
  dIaq : bsecData;
  dCo2 : bsecData;
  dVoc : bsecData;
  beginLow : bool;
  beginHigh : bool;
  subscribeOk : bool;
  getStateOk : bool
}.

(** What one sampling cycle produces besides the new globals. *)
Record CycleOutput := {
  out_vals : SensorValues;
  out_shown : SelectedMetric;
  out_label : string;
  out_baselineSet : bool;
  out_windowReset : bool;
  out_saved : option bool
}.

Record LoopOutput := {
  out_scanned : bool;
  out_reinit : option bool;
  out_cycle : option CycleOutput;
  out_warned : bool
}.

(** [initBsec2]: its result and the globals after it.  The sensor library
    and the saved state it reloads live outside the globals. *)
Definition initBsec2 (inp : LoopInput) (g : Globals) : bool * Globals :=
  if negb (beginLow inp) && negb (beginHigh inp) then (false, g)
  else if negb (subscribeOk inp) then (false, g)
  else (true, set_lastUpdate 0 g).

(** The baseline lock of [loop]. *)
Definition establishBaseline (t : Z) (gas : float) (b : Baseline)
  : Baseline * bool :=
  if negb (baselineEstablished b) && (BASELINE_DELAY_MS <? t)
  then ({| baselineEstablished := true;
           gasBaseline := gas;
           gasMinWindow := gas;
           lastWindowUpdate := lastWindowUpdate b |}, true)
  else (b, false).

(** The periodic window reset of [loop]. *)
Definition resetWindow (t : Z) (gas : float) (b : Baseline)
  : Baseline * bool :=
  if baselineEstablished b
     && (WINDOW_UPDATE_INTERVAL_MS <? usub t (lastWindowUpdate b))
  then ({| baselineEstablished := baselineEstablished b;
           gasBaseline := gasBaseline b;
           gasMinWindow := gas;
           lastWindowUpdate := t |}, true)
  else (b, false).

(** The guard of the periodic state save. *)
Definition shouldSave (t : Z) (acc : Z) (g : Globals) : bool :=
  (acc =? 3) && (SAVE_PERIOD_MS <=? usub t (lastStateSave g)).

Section Pipeline.

(** [pow] of the C library on binary32, which the sources do not define. *)
Variable powf : float -> float -> float.

(** [calcAltitude]; the global it reads, [gSeaLevelPressure], is the
    argument [seaLevel]. *)
Definition calcAltitude (seaLevel pressure : float) : float :=
  F32.mul f44330 (F32.sub f1 (powf (F32.div pressure seaLevel) f0_1903)).

(** The body of [loop] under [got && now - lastUpdate >= UPDATE_INTERVAL_MS]. *)
Definition sampleCycle (inp : LoopInput) (g : Globals)
  : Globals * CycleOutput :=
  let t := now inp in
  let pressure := normalizePressure (signal (dPress inp)) in
  let gas := normalizeGas (signal (dGas inp)) in
  let '(b1, locked) := establishBaseline t gas (baseline g) in
  let '(b2, reset) := resetWindow t gas b1 in
  let '(index, b3) := computeSimpleVocIndex gas b2 in
  let vals :=
    {| temperature := signal (dTemp inp);
       humidity := signal (dHum inp);
       pressure_hPa := pressure;
       gas_kOhm := gas;
       altitude_m := calcAltitude gSeaLevelPressure pressure;
       iaq := signal (dIaq inp);
       iaqAccuracy := accuracy (dIaq inp);
       co2eq := signal (dCo2 inp);
       vocEq := signal (dVoc inp);
       readMs := tRead inp;
       simpleVocIndex := index;
       gasBaseline_kOhm := gasBaseline b3;
       gasMinWindow_kOhm := gasMinWindow b3 |} in
  let save := shouldSave t (iaqAccuracy vals) g in
  ({| lastUpdate := t;
      lastStateSave := if save then t else lastStateSave g;
      uiDrawn := uiDrawn g;
      baseline := b3;
      pressureDebugPrinted := true;
      warnedOnce := warnedOnce g |},
   {| out_vals := vals;
      out_shown := updateDynamicUI vals;
      out_label := classifySimpleVoc index;
      out_baselineSet := locked;
      out_windowReset := reset;
      out_saved := if save then Some (saveState (getStateOk inp)) else None |}).

(** [loop]: the buttons, then a sampling cycle when one is due. *)
Definition loop (inp : LoopInput) (g : Globals) : Globals * LoopOutput :=
  let gA := if btnA inp then set_lastUpdate 0 g else g in
  let '(re, gC) :=
    if btnC inp
    then let '(ok, g') := initBsec2 inp gA in (Some ok, g')
    else (None, gA) in
  if got inp && (UPDATE_INTERVAL_MS <=? usub (now inp) (lastUpdate gC))
  then
    let '(g', o) := sampleCycle inp gC in
    (g', {| out_scanned := btnB inp; out_reinit := re;
            out_cycle := Some o; out_warned := false |})
  else if negb (got inp)
  then
    (set_warnedOnce true gC,
     {| out_scanned := btnB inp; out_reinit := re;
        out_cycle := None; out_warned := negb (warnedOnce gC) |})
  else
    (gC, {| out_scanned := btnB inp; out_reinit := re;
            out_cycle := None; out_warned := false |}).

(** [setup]: draw the static screen, then [initBsec2]. *)
Definition setup (inp : LoopInput) : bool * Globals :=
  let '(ok, g) := initBsec2 inp initial_globals in
  (ok,
   {| lastUpdate := lastUpdate g;
      lastStateSave := lastStateSave g;
      uiDrawn := true;
      baseline := baseline g;
      pressureDebugPrinted := pressureDebugPrinted g;
      warnedOnce := warnedOnce g |}).

(** A run of sampling cycles: the final globals and each cycle's output. *)
Fixpoint runCycles (cs : list LoopInput) (g : Globals)
  : Globals * list CycleOutput :=
  match cs with
  | [] => (g, [])
  | c :: cs' =>
      let '(g1, o) := sampleCycle c g in
      let '(g2, os) := runCycles cs' g1 in
      (g2, o :: os)
  end.

(** A run of passes of [loop]. *)
Fixpoint runLoop (ps : list LoopInput) (g : Globals)
  : Globals * list LoopOutput :=
  match ps with
  | [] => (g, [])
  | p :: ps' =>
      let '(g1, o) := loop p g in
      let '(g2, os) := runLoop ps' g1 in
      (g2, o :: os)
  end.

End Pipeline.

(** An instance of [pow] to evaluate the model on concrete inputs. *)
Definition powf_one : float -> float -> float := fun _ _ => f1.

(** A second instance: [pow] at the exponent 1, the value of its first
    argument. *)
Definition powf_id (x y : float) : float := x.

(** ** The real value of a binary32 number *)

(** [F2R m e] is [m * 2^e].  [bracket m e l x] places the real [x] in
    [[m * 2^e, (m + 1) * 2^e)] as the location [l] of [binary_round_aux]
    says: on the lower end, below, at or above the middle. *)
Definition bpow (e : Z) : R := powerRZ 2 e.
Definition F2R (m e : Z) : R := (IZR m * bpow e)%R.

Definition bracket (m e : Z) (l : location) (x : R) : Prop :=
  match l with
  | loc_Exact => x = F2R m e
  | loc_Inexact Lt => (F2R m e < x < F2R m e + bpow e / 2)%R
  | loc_Inexact Eq => x = (F2R m e + bpow e / 2)%R
  | loc_Inexact Gt => (F2R m e + bpow e / 2 < x < F2R (m + 1) e)%R
  end.

Arguments bpow : simpl never.
Arguments F2R : simpl never.

(** [x] has its leading bit at [2^(k-1)]. *)
Definition binade (k : Z) (x : R) : Prop := (bpow (k - 1) <= x < bpow k)%R.

(** The value of a finite float; 0 for the others. *)
Definition B2R (x : float) : R :=
  match x with
  | S754_finite s m e => F2R (cond_Zopp s (Zpos m)) e
  | _ => 0%R
  end.

Definition is_finite (x : float) : bool :=
  match x with
  | S754_finite _ _ _ | S754_zero _ => true
  | _ => false
  end.

(** What [binary_round_aux] returns for the rounded mantissa [r] at the
    canonical exponent [E]: a zero, a finite float (renormalised when the
    mantissa reached [2^24]) or, past the largest exponent, an infinity. *)
Definition round_result (s : bool) (r E : Z) : float :=
  if r =? 0 then S754_zero s
  else if r =? 2 ^ 24 then
    if E + 1 <=? 104 then S754_finite s (Z.to_pos (2 ^ 23)) (E + 1)
    else S754_infinity s
  else
    if E <=? 104 then S754_finite s (Z.to_pos r) E else S754_infinity s.

(** [f] is the positive real [x] rounded to nearest even, with sign [s]. *)
Definition rounds_abs (s : bool) (x : R) (f : float) : Prop :=
  exists k m l,
    binade k x /\ 0 <= m /\
    bracket m (fexp F32.prec F32.emax k) l x /\
    f = round_result s (round_nearest_even m l) (fexp F32.prec F32.emax k).

(** [f] is the real [v] rounded to nearest even. *)
Definition rounds_to (v : R) (f : float) : Prop :=
  (v = 0%R /\ F32.is_zero f = true) \/
  ((0 < v)%R /\ rounds_abs false v f) \/
  ((v < 0)%R /\ rounds_abs true (- v) f).

(** ** Vocabulary of the statements *)

(** [x] is a zero, a finite number or an infinity of sign [s]. *)
Definition signed_as (s : bool) (x : float) : Prop :=
  match x with
  | S754_zero s' | S754_infinity s' | S754_finite s' _ _ => s' = s
  | S754_nan => False
  end.

(** [(delta / baseline) * 100] before the clamp. *)
Definition rawIndex (base current : float) : float :=
  F32.mul (F32.div (F32.sub base current) base) f100.

(** The percentage drop below the baseline, clamped at zero. *)
Definition indexFormula (base current : float) : float :=
  let index := rawIndex base current in
  if F32.ltb index f0 then f0 else index.

(** The gas reading of a cycle, in kOhm. *)
Definition cycleGas (c : LoopInput) : float := normalizeGas (signal (dGas c)).

(** The times of the cycles that saved the state. *)
Fixpoint savedAt (cs : list LoopInput) (os : list CycleOutput) : list Z :=
  match cs, os with
  | c :: cs', o :: os' =>
      match out_saved o with
      | Some _ => now c :: savedAt cs' os'
      | None => savedAt cs' os'
      end
  | _, _ => []
  end.

(** Each time of [ts] is at least [SAVE_PERIOD_MS] after the one before,
    the first one after [last]. *)
Fixpoint spaced (last : Z) (ts : list Z) : Prop :=
  match ts with
  | [] => True
  | t :: ts' => SAVE_PERIOD_MS <= usub t last /\ spaced t ts'
  end.

(** The globals with another window minimum. *)
Definition with_gasMinWindow (w : float) (g : Globals) : Globals :=
  {| lastUpdate := lastUpdate g;
     lastStateSave := lastStateSave g;
     uiDrawn := uiDrawn g;
     baseline :=
       {| baselineEstablished := baselineEstablished (baseline g);
          gasBaseline := gasBaseline (baseline g);
          gasMinWindow := w;
          lastWindowUpdate := lastWindowUpdate (baseline g) |};
     pressureDebugPrinted := pressureDebugPrinted g;
     warnedOnce := warnedOnce g |}.

(** Two tracker states that differ at most in the window minimum. *)
Definition same_but_window (b1 b2 : Baseline) : Prop :=
  baselineEstablished b1 = baselineEstablished b2 /\
  gasBaseline b1 = gasBaseline b2 /\
  lastWindowUpdate b1 = lastWindowUpdate b2.

(** ** Concrete inputs *)

(** A pass of [loop] at time [t] with new data: raw gas resistance [gasOhm]
    (in ohm), IAQ accuracy [acc], no button pressed, every library call
    succeeding except [getState] which answers [blobOk]. *)
Definition cycle_at (t gasOhm acc : Z) (blobOk : bool) : LoopInput :=
  {| btnA := false; btnB := false; btnC := false;
     now := t; got := true; tRead := 0;
     dTemp := {| signal := F32.of_Z 25; accuracy := 0 |};
     dHum := {| signal := F32.of_Z 40; accuracy := 0 |};
     dPress := {| signal := F32.of_Z 101325; accuracy := 0 |};
     dGas := {| signal := F32.of_Z gasOhm; accuracy := 0 |};
     dIaq := {| signal := F32.of_Z 50; accuracy := acc |};
     dCo2 := {| signal := F32.of_Z 500; accuracy := acc |};
     dVoc := {| signal := F32.of_Z 1; accuracy := acc |};
     beginLow := true; beginHigh := true; subscribeOk := true;
     getStateOk := blobOk |}.

(** A pass in which only button C is pressed and no data is ready. *)
Definition press_C (t : Z) : LoopInput :=
  {| btnA := false; btnB := false; btnC := true;
     now := t; got := false; tRead := 0;
     dTemp := {| signal := F32.NAN; accuracy := 0 |};
     dHum := {| signal := F32.NAN; accuracy := 0 |};
     dPress := {| signal := F32.NAN; accuracy := 0 |};
     dGas := {| signal := F32.NAN; accuracy := 0 |};
     dIaq := {| signal := F32.NAN; accuracy := 0 |};
     dCo2 := {| signal := F32.NAN; accuracy := 0 |};
     dVoc := {| signal := F32.NAN; accuracy := 0 |};
     beginLow := true; beginHigh := true; subscribeOk := true;
     getStateOk := true |}.

(** A tracker locked at [base] with window minimum [w]. *)
Definition established_baseline (base w : float) (lastWindow : Z) : Baseline :=
  {| baselineEstablished := true;
     gasBaseline := base;
     gasMinWindow := w;
     lastWindowUpdate := lastWindow |}.

(** Globals with a baseline locked at [base] and a window minimum [w]. *)
Definition established_globals (base w : float) (lastWindow lastSave : Z)
  : Globals :=
  {| lastUpdate := 0;
     lastStateSave := lastSave;
     uiDrawn := true;
     baseline := established_baseline base w lastWindow;
     pressureDebugPrinted := true;
     warnedOnce := false |}.

(** ** More of the program: scans, saved state, runs of [loop] *)

(** [uint8_t] arithmetic. *)
Definition u8 (z : Z) : Z := z mod 256.

(** The addresses [a], [a + 1], ... ([n] of them). *)
Fixpoint addrs_from (a : Z) (n : nat) : list Z :=
  match n with
  | O => []
  | S n' => a :: addrs_from (a + 1) n'
  end.

(** The [for] loop of [i2cScan]: [addr] and [count] are [uint8_t]; [ack addr]
    says whether [Wire.endTransmission()] returned 0 for that address.  The
    result is the addresses printed and the final [count], or [None] when
    [fuel] passes do not reach the end of the loop. *)
Fixpoint i2cScanLoop (ack : Z -> bool) (fuel : nat) (addr count : Z)
  (found : list Z) : option (list Z * Z) :=
  match fuel with
  | O => None
  | S fuel' =>
      if addr <? 127
      then
        if ack addr
        then i2cScanLoop ack fuel' (u8 (addr + 1)) (u8 (count + 1))
               (found ++ [addr])
        else i2cScanLoop ack fuel' (u8 (addr + 1)) count found
      else Some (found, count)
  end.

Definition i2cScan (ack : Z -> bool) (fuel : nat) : option (list Z * Z) :=
  i2cScanLoop ack fuel 1 0 [].

(** The [for] loop of [scanI2C] of the Adafruit program: [address] is a
    [byte], [nDevices] an [int]. *)
Fixpoint scanI2CLoop (ack : Z -> bool) (fuel : nat) (address nDevices : Z)
  (found : list Z) : option (list Z * Z) :=
  match fuel with
  | O => None
  | S fuel' =>
      if address <? 127
      then
        if ack address
        then scanI2CLoop ack fuel' (u8 (address + 1)) (nDevices + 1)
               (found ++ [address])
        else scanI2CLoop ack fuel' (u8 (address + 1)) nDevices found
      else Some (found, nDevices)
  end.

Definition scanI2C (ack : Z -> bool) (fuel : nat) : option (list Z * Z) :=
  scanI2CLoop ack fuel 1 0 [].

(** The saved state.  [Preferences] is taken as a store of blobs by
    namespace and key, the latest [putBytes] first. *)
Module Persist.

Definition Nvs : Type := list (string * string * list Byte.byte).

Definition PREF_NAMESPACE : string := "bsec2".
Definition PREF_KEY_STATE : string := "state".

Fixpoint nvs_get (s : Nvs) (ns key : string) : option (list Byte.byte) :=
  match s with
  | [] => None
  | (ns', key', v) :: s' =>
      if String.eqb ns ns' && String.eqb key key' then Some v
      else nvs_get s' ns key
  end.

(** [prefs.getBytesLength]: 0 for a missing key. *)
Definition getBytesLength (s : Nvs) (ns key : string) : nat :=
  match nvs_get s ns key with
  | Some v => List.length v
  | None => O
  end.

(** [prefs.putBytes]. *)
Definition putBytes (s : Nvs) (ns key : string) (v : list Byte.byte) : Nvs :=
  (ns, key, v) :: s.

Section Blob.

(** The size of the state blob, a constant of the BSEC library. *)
Variable BSEC_MAX_STATE_BLOB_SIZE : nat.

(** [loadState]: the blob handed to [envSensor.setState], if it is called.
    [stack] is what the local array [blob] holds before [getBytes] fills
    its first [len] bytes. *)
Definition loadState (s : Nvs) (stack : list Byte.byte)
  : option (list Byte.byte) :=
  let len := getBytesLength s PREF_NAMESPACE PREF_KEY_STATE in
  if (0 <? len)%nat && (len <=? BSEC_MAX_STATE_BLOB_SIZE)%nat
  then
    match nvs_get s PREF_NAMESPACE PREF_KEY_STATE with
    | Some v => Some (firstn len v ++ skipn len stack)
    | None => Some stack
    end
  else None.

(** [saveState]: the store after the call; [state] is the array filled by
    [envSensor.getState], or [None] when that call fails. *)
Definition saveState (s : Nvs) (state : option (list Byte.byte)) : Nvs :=
  match state with
  | Some blob =>
      putBytes s PREF_NAMESPACE PREF_KEY_STATE
        (firstn BSEC_MAX_STATE_BLOB_SIZE blob)
  | None => s
  end.

End Blob.

End Persist.

(** Each time of [ts] is at least [d] after the one before, the first one
    after [last]. *)
Fixpoint spacedBy (d last : Z) (ts : list Z) : Prop :=
  match ts with
  | [] => True
  | t :: ts' => d <= usub t last /\ spacedBy d t ts'
  end.

(** A pass in which button A, or button C with a successful [initBsec2],
    zeroes [lastUpdate]. *)
Definition forced (p : LoopInput) : bool :=
  btnA p
  || (btnC p && (beginLow p || beginHigh p) && subscribeOk p).

Definition sampled (o : LoopOutput) : bool :=
  match out_cycle o with Some _ => true | None => false end.

Definition pass_saved (o : LoopOutput) : bool :=
  match out_cycle o with
  | Some c => match out_saved c with Some _ => true | None => false end
  | None => false
  end.

Definition pass_locked (o : LoopOutput) : bool :=
  match out_cycle o with
  | Some c => out_baselineSet c
  | None => false
  end.

(** The times of the passes of a run that satisfy [sel]. *)
Fixpoint timesOf (sel : LoopOutput -> bool) (ps : list LoopInput)
  (os : list LoopOutput) : list Z :=
  match ps, os with
  | p :: ps', o :: os' =>
      if sel o then now p :: timesOf sel ps' os' else timesOf sel ps' os'
  | _, _ => []
  end.

(** The times of the cycles of a run that satisfy [sel]. *)
Fixpoint cycleTimesOf (sel : CycleOutput -> bool) (cs : list LoopInput)
  (os : list CycleOutput) : list Z :=
  match cs, os with
  | c :: cs', o :: os' =>
      if sel o then now c :: cycleTimesOf sel cs' os'
      else cycleTimesOf sel cs' os'
  | _, _ => []
  end.

(** The labels from best to worst; Building stands apart at 0. *)
Definition rank (l : Label) : nat :=
  match l with
  | Building => 0
  | Excellent => 1
  | Normal => 2
  | Elevated => 3
  | Poor => 4
  | Severe => 5
  end.

(** A pass without data and without buttons. *)
Definition idle_at (t : Z) : LoopInput :=
  {| btnA := false; btnB := false; btnC := false;
     now := t; got := false; tRead := 0;
     dTemp := {| signal := F32.NAN; accuracy := 0 |};
     dHum := {| signal := F32.NAN; accuracy := 0 |};
     dPress := {| signal := F32.NAN; accuracy := 0 |};
     dGas := {| signal := F32.NAN; accuracy := 0 |};
     dIaq := {| signal := F32.NAN; accuracy := 0 |};
     dCo2 := {| signal := F32.NAN; accuracy := 0 |};
     dVoc := {| signal := F32.NAN; accuracy := 0 |};
     beginLow := true; beginHigh := true; subscribeOk := true;
     getStateOk := true |}.

(** A pass with data in which button A is pressed. *)
Definition press_A (t gasOhm : Z) : LoopInput :=
  {| btnA := true; btnB := false; btnC := false;
     now := t; got := true; tRead := 0;
     dTemp := {| signal := F32.of_Z 25; accuracy := 0 |};
     dHum := {| signal := F32.of_Z 40; accuracy := 0 |};
     dPress := {| signal := F32.of_Z 101325; accuracy := 0 |};
     dGas := {| signal := F32.of_Z gasOhm; accuracy := 0 |};
     dIaq := {| signal := F32.of_Z 50; accuracy := 0 |};
     dCo2 := {| signal := F32.of_Z 500; accuracy := 0 |};
     dVoc := {| signal := F32.of_Z 1; accuracy := 0 |};
     beginLow := true; beginHigh := true; subscribeOk := true;
     getStateOk := true |}.

(** * Properties *)

(** ** Rounding never yields NaN and keeps the sign *)

Section Rounding.

Variables prec emax : Z.

Lemma shr_1_nonneg mrs : 0 <= shr_m mrs -> 0 <= shr_m (shr_1 mrs).
Proof.
  destruct mrs as [m r s]; simpl.
  destruct m as [|p|p]; simpl; try lia; destruct p; simpl; lia.
Qed.

Lemma iter_pos_inv {A} (P : A -> Prop) (f : A -> A) :
  (forall x, P x -> P (f x)) -> forall n x, P x -> P (SpecFloat.iter_pos f n x).
Proof.
  intros Hf; induction n as [n IH|n IH|]; intros x Hx; simpl; auto.
Qed.

Lemma shr_nonneg mrs e n : 0 <= shr_m mrs -> 0 <= shr_m (fst (shr mrs e n)).
Proof.
  intros H; unfold shr; destruct n; simpl; auto.
  apply (iter_pos_inv (fun r => 0 <= shr_m r)); auto using shr_1_nonneg.
Qed.

Lemma shr_record_of_loc_m m l : shr_m (shr_record_of_loc m l) = m.
Proof. destruct l as [|[]]; reflexivity. Qed.

Lemma shr_fexp_nonneg m e l :
  0 <= m -> 0 <= shr_m (fst (shr_fexp prec emax m e l)).
Proof.
  intros H; unfold shr_fexp; apply shr_nonneg.
  now rewrite shr_record_of_loc_m.
Qed.

Lemma round_nearest_even_nonneg m l : 0 <= m -> 0 <= round_nearest_even m l.
Proof.
  intros H; destruct l as [|[]]; simpl; try lia.
  destruct (Z.even m); lia.
Qed.

Lemma binary_round_aux_signed sx mx ex lx :
  0 <= mx -> signed_as sx (binary_round_aux prec emax sx mx ex lx).
Proof.
  intros H; unfold binary_round_aux.
  pose proof (shr_fexp_nonneg mx ex lx H) as H1.
  destruct (shr_fexp prec emax mx ex lx) as [mrs' e']; simpl in H1.
  pose proof (shr_fexp_nonneg _ e' loc_Exact
                (round_nearest_even_nonneg _ (loc_of_shr_record mrs') H1)) as H2.
  destruct (shr_fexp prec emax _ e' loc_Exact) as [mrs'' e'']; simpl in H2.
  destruct (shr_m mrs'') as [|p|p]; simpl; auto; try lia.
  destruct (e'' <=? emax - prec); reflexivity.
Qed.

Lemma binary_round_signed sx mx ex :
  signed_as sx (binary_round prec emax sx mx ex).
Proof.
  unfold binary_round.
  destruct (shl_align _ _ _) as [mz ez].
  apply binary_round_aux_signed; lia.
Qed.

Lemma signed_as_not_nan s x : signed_as s x -> F32.isnan x = false.
Proof. destruct x; simpl; tauto. Qed.

Lemma not_nan_signed x : F32.isnan x = false -> exists s, signed_as s x.
Proof. destruct x as [s|s| |s m e]; simpl; try discriminate; eauto. Qed.

Lemma binary_normalize_not_nan m e s :
  F32.isnan (binary_normalize prec emax m e s) = false.
Proof.
  destruct m as [|p|p]; simpl; auto;
    eapply signed_as_not_nan, binary_round_signed.
Qed.

Lemma binary_normalize_neg m e s :
  m < 0 -> signed_as true (binary_normalize prec emax m e s).
Proof.
  destruct m as [|p|p]; try lia; intros _; apply binary_round_signed.
Qed.

Lemma div_eucl_nonneg a b : 0 <= a -> 0 < b -> 0 <= fst (Z.div_eucl a b).
Proof.
  intros Ha Hb. pose proof (Z.div_pos a b Ha Hb) as H.
  unfold Z.div in H. now destruct (Z.div_eucl a b).
Qed.

Lemma div_signed sx x sy my ey :
  signed_as sx x ->
  signed_as (xorb sx sy) (SFdiv prec emax x (S754_finite sy my ey)).
Proof.
  destruct x as [s|s| |s mx ex]; simpl; intros H; try tauto; subst; auto.
  unfold SFdiv_core_binary.
  set (m' := match _ - _ - _ with Z0 => _ | Zpos _ => _ | Zneg _ => _ end).
  assert (Hm : 0 <= m').
  { unfold m'. destruct (_ - _ - _); try lia.
    apply Z.shiftl_nonneg; lia. }
  pose proof (div_eucl_nonneg m' (Zpos my) Hm ltac:(lia)) as Hq.
  destruct (Z.div_eucl m' (Zpos my)) as [q r]; simpl in Hq.
  now apply binary_round_aux_signed.
Qed.

Lemma mul_signed sx x sy my ey :
  signed_as sx x ->
  signed_as (xorb sx sy) (SFmul prec emax x (S754_finite sy my ey)).
Proof.
  destruct x as [s|s| |s mx ex]; simpl; intros H; try tauto; subst; auto.
  apply binary_round_aux_signed; lia.
Qed.

Lemma sub_finite_not_nan sx mx ex y :
  F32.isnan y = false ->
  F32.isnan (SFsub prec emax (S754_finite sx mx ex) y) = false.
Proof.
  destruct y as [s|s| |s my ey]; simpl; intros H; try discriminate; auto.
  apply binary_normalize_not_nan.
Qed.

End Rounding.

(** ** The order of binary32 *)

Lemma SFcompare_antisym x y :
  SFcompare y x = option_map CompOpp (SFcompare x y).
Proof.
  destruct x as [sx|sx| |sx mx ex], y as [sy|sy| |sy my ey]; simpl;
    try reflexivity;
    try (destruct sx; reflexivity); try (destruct sy; reflexivity);
    try (destruct sx, sy; reflexivity).
  destruct sx, sy; simpl; try reflexivity;
    rewrite (Z.compare_antisym ex ey);
    destruct (ex ?= ey); simpl; try reflexivity;
    change (Pos.compare_cont Eq my mx) with (Pos.compare my mx);
    change (Pos.compare_cont Eq mx my) with (Pos.compare mx my);
    rewrite (Pos.compare_antisym mx my); try reflexivity.
  all: try now rewrite CompOpp_involutive.
Qed.

Lemma SFcompare_some x y :
  F32.isnan x = false -> F32.isnan y = false ->
  exists c, SFcompare x y = Some c.
Proof.
  intros Hx Hy; destruct x, y; try discriminate; simpl; eauto.
Qed.

Lemma leb_negb_ltb x y :
  F32.isnan x = false -> F32.isnan y = false ->
  F32.leb y x = negb (F32.ltb x y).
Proof.
  intros Hx Hy; unfold F32.leb, F32.ltb, SFleb, SFltb.
  rewrite (SFcompare_antisym x y).
  destruct (SFcompare_some x y Hx Hy) as [c ->]; destruct c; reflexivity.
Qed.

Lemma cmp_lex_trans (e1 e2 e3 : Z) (m1 m2 m3 : positive) :
  match e1 ?= e2 with Lt => Lt | Gt => Gt | Eq => (m1 ?= m2)%positive end = Lt ->
  match e2 ?= e3 with Lt => Lt | Gt => Gt | Eq => (m2 ?= m3)%positive end = Lt ->
  match e1 ?= e3 with Lt => Lt | Gt => Gt | Eq => (m1 ?= m3)%positive end = Lt.
Proof.
  destruct (Z.compare_spec e1 e2), (Z.compare_spec e2 e3); try discriminate;
    intros H1 H2; destruct (Z.compare_spec e1 e3); try lia; try reflexivity.
  rewrite Pos.compare_lt_iff in *; lia.
Qed.

Lemma cmp_lex_trans_opp (e1 e2 e3 : Z) (m1 m2 m3 : positive) :
  match e1 ?= e2 with Lt => Gt | Gt => Lt | Eq => CompOpp (m1 ?= m2)%positive end = Lt ->
  match e2 ?= e3 with Lt => Gt | Gt => Lt | Eq => CompOpp (m2 ?= m3)%positive end = Lt ->
  match e1 ?= e3 with Lt => Gt | Gt => Lt | Eq => CompOpp (m1 ?= m3)%positive end = Lt.
Proof.
  destruct (Z.compare_spec e1 e2), (Z.compare_spec e2 e3); try discriminate;
    intros H1 H2; destruct (Z.compare_spec e1 e3); try lia; try reflexivity.
  destruct (Pos.compare_spec m1 m2), (Pos.compare_spec m2 m3); try discriminate.
  destruct (Pos.compare_spec m1 m3); try lia; reflexivity.
Qed.

Lemma ltb_trans x y z :
  F32.ltb x y = true -> F32.ltb y z = true -> F32.ltb x z = true.
Proof.
  unfold F32.ltb, SFltb.
  destruct x as [sx|sx| |sx mx ex], y as [sy|sy| |sy my ey],
    z as [sz|sz| |sz mz ez]; simpl; try discriminate;
    try (destruct sx; simpl; try discriminate);
    try (destruct sy; simpl; try discriminate);
    try (destruct sz; simpl; try discriminate); try reflexivity.
  - change (Pos.compare_cont Eq) with Pos.compare.
    intros H1 H2.
    assert (H := cmp_lex_trans_opp ex ey ez mx my mz).
    destruct (match ex ?= ey with Lt => Gt | Gt => Lt | Eq => CompOpp (mx ?= my)%positive end);
      try discriminate.
    destruct (match ey ?= ez with Lt => Gt | Gt => Lt | Eq => CompOpp (my ?= mz)%positive end);
      try discriminate.
    now rewrite H.
  - change (Pos.compare_cont Eq) with Pos.compare.
    intros H1 H2.
    assert (H := cmp_lex_trans ex ey ez mx my mz).
    destruct (match ex ?= ey with Lt => Lt | Gt => Gt | Eq => (mx ?= my)%positive end);
      try discriminate.
    destruct (match ey ?= ez with Lt => Lt | Gt => Gt | Eq => (my ?= mz)%positive end);
      try discriminate.
    now rewrite H.
Qed.

(** ** A smaller number minus a larger one is negative *)

Lemma digits2_pos_bounds m :
  2 ^ (Zpos (digits2_pos m) - 1) <= Zpos m < 2 ^ Zpos (digits2_pos m).
Proof.
  induction m as [m IH|m IH|]; simpl digits2_pos.
  - rewrite Pos2Z.inj_succ.
    replace (Z.succ (Zpos (digits2_pos m)) - 1)
      with (Z.succ (Zpos (digits2_pos m) - 1)) by lia.
    rewrite !Z.pow_succ_r by lia. lia.
  - rewrite Pos2Z.inj_succ.
    replace (Z.succ (Zpos (digits2_pos m)) - 1)
      with (Z.succ (Zpos (digits2_pos m) - 1)) by lia.
    rewrite !Z.pow_succ_r by lia. lia.
  - simpl. lia.
Qed.

Lemma iter_xO_double m d : 2 * Zpos m <= Zpos (Pos.iter xO m d).
Proof.
  induction d as [|d IH] using Pos.peano_ind.
  - simpl. lia.
  - rewrite Pos.iter_succ. lia.
Qed.

(** What [bounded] says of a binary32 mantissa and exponent: at most 24
    bits, and exactly 24 above the least exponent. *)
Lemma bounded_digits m e :
  SpecFloat.bounded F32.prec F32.emax m e = true ->
  Zpos m < 2 ^ 24 /\ (-149 <= e) /\ (-149 < e -> 2 ^ 23 <= Zpos m).
Proof.
  unfold SpecFloat.bounded, canonical_mantissa, fexp, emin, F32.prec, F32.emax.
  intros H; apply andb_prop in H; destruct H as [H _].
  apply Z.eqb_eq in H.
  pose proof (digits2_pos_bounds m) as [Hlo Hhi].
  assert (Hd : Zpos (digits2_pos m) <= 24) by lia.
  repeat split; try lia.
  - apply Z.lt_le_trans with (1 := Hhi).
    apply Z.pow_le_mono_r; lia.
  - intros He. assert (Hd' : Zpos (digits2_pos m) = 24) by lia.
    rewrite Hd' in Hlo. exact Hlo.
Qed.

Lemma align_lt mb eb mc ec :
  SpecFloat.bounded F32.prec F32.emax mb eb = true ->
  SpecFloat.bounded F32.prec F32.emax mc ec = true ->
  match eb ?= ec with Lt => Lt | Gt => Gt | Eq => (mb ?= mc)%positive end = Lt ->
  Zpos (fst (shl_align mb eb (Z.min eb ec))) <
  Zpos (fst (shl_align mc ec (Z.min eb ec))).
Proof.
  intros Hb Hc Hlt.
  destruct (bounded_digits _ _ Hb) as (Hb1 & Hb2 & Hb3).
  destruct (bounded_digits _ _ Hc) as (Hc1 & Hc2 & Hc3).
  destruct (Z.compare_spec eb ec) as [E|E|E]; try discriminate.
  - subst ec. rewrite Z.min_id. unfold shl_align. rewrite Z.sub_diag. simpl.
    now apply Pos.compare_lt_iff in Hlt.
  - rewrite Z.min_l by lia. unfold shl_align. rewrite Z.sub_diag. simpl fst at 1.
    destruct (eb - ec) as [|d|d] eqn:Ed; try lia. simpl fst.
    pose proof (iter_xO_double mc d). lia.
Qed.

Lemma lex_opp_swap (ex ey : Z) (mx my : positive) :
  match ex ?= ey with Lt => Gt | Gt => Lt | Eq => CompOpp (mx ?= my)%positive end = Lt ->
  match ey ?= ex with Lt => Lt | Gt => Gt | Eq => (my ?= mx)%positive end = Lt.
Proof.
  rewrite (Z.compare_antisym ex ey), (Pos.compare_antisym mx my).
  destruct (ex ?= ey); simpl; auto; discriminate.
Qed.

Lemma sub_lt_negative x y :
  F32.valid x = true -> F32.valid y = true ->
  F32.ltb x y = true -> signed_as true (F32.sub x y).
Proof.
  unfold F32.valid, F32.ltb, SFltb, F32.sub.
  destruct x as [sx|sx| |sx mx ex], y as [sy|sy| |sy my ey]; simpl;
    intros Vx Vy H; try discriminate;
    try (destruct sx; try discriminate); try (destruct sy; try discriminate);
    try reflexivity.
  - (* both negative *)
    change (Pos.compare_cont Eq) with Pos.compare in H.
    apply binary_normalize_neg.
    assert (L := align_lt my ey mx ex Vy Vx).
    rewrite (Z.min_comm ey ex) in L.
    destruct (match ex ?= ey with Lt => Gt | Gt => Lt | Eq => CompOpp (mx ?= my)%positive end) eqn:E;
      try discriminate.
    apply lex_opp_swap in E. specialize (L E). unfold cond_Zopp. lia.
  - (* negative minus positive *)
    apply binary_normalize_neg. unfold cond_Zopp. lia.
  - (* both positive *)
    change (Pos.compare_cont Eq) with Pos.compare in H.
    apply binary_normalize_neg.
    assert (L := align_lt mx ex my ey Vx Vy).
    destruct (match ex ?= ey with Lt => Lt | Gt => Gt | Eq => (mx ?= my)%positive end) eqn:E;
      try discriminate.
    specialize (L eq_refl). unfold cond_Zopp. lia.
Qed.

(** ** The index before and after the clamp *)

Lemma f100_finite : f100 = S754_finite false 13107200 (-17).
Proof. reflexivity. Qed.

Lemma rawIndex_signed sb mb eb c s :
  signed_as s (F32.sub (S754_finite sb mb eb) c) ->
  signed_as (xorb (xorb s sb) false) (rawIndex (S754_finite sb mb eb) c).
Proof.
  intros H. unfold rawIndex, F32.mul, F32.div. rewrite f100_finite.
  apply mul_signed. now apply div_signed.
Qed.

Lemma rawIndex_not_nan sb mb eb c :
  F32.isnan c = false -> F32.isnan (rawIndex (S754_finite sb mb eb) c) = false.
Proof.
  intros Hc.
  destruct (not_nan_signed _
              (sub_finite_not_nan F32.prec F32.emax sb mb eb c Hc)) as [s Hs].
  eapply signed_as_not_nan, rawIndex_signed. exact Hs.
Qed.

Lemma clamp_isnan x :
  F32.isnan (if F32.ltb x f0 then f0 else x) = F32.isnan x.
Proof. destruct x as [[]|[]| |[] m e]; reflexivity. Qed.

Lemma clamp_not_negative x :
  F32.ltb (if F32.ltb x f0 then f0 else x) f0 = false.
Proof. destruct (F32.ltb x f0) eqn:E; [reflexivity | exact E]. Qed.

Lemma clamp_negative_zero x :
  signed_as true x -> F32.is_zero (if F32.ltb x f0 then f0 else x) = true.
Proof.
  destruct x as [[]|[]| |[] m e]; simpl; intros H;
    try discriminate; tauto || reflexivity.
Qed.

Lemma computeSimpleVocIndex_open c b :
  baselineEstablished b = true -> F32.isnan (gasBaseline b) = false ->
  F32.leb (gasBaseline b) f0 = false ->
  fst (computeSimpleVocIndex c b) = indexFormula (gasBaseline b) c.
Proof.
  intros H1 H2 H3. unfold computeSimpleVocIndex. rewrite H1, H2, H3. reflexivity.
Qed.

Lemma computeSimpleVocIndex_closed c b :
  baselineEstablished b = false \/ F32.isnan (gasBaseline b) = true \/
  F32.leb (gasBaseline b) f0 = true ->
  computeSimpleVocIndex c b = (F32.NAN, b).
Proof.
  intros H. unfold computeSimpleVocIndex.
  destruct H as [-> | [-> | ->]]; simpl; try reflexivity;
    now rewrite orb_true_r.
Qed.

(** [computeSimpleVocIndex] touches nothing but the window minimum. *)
Lemma computeSimpleVocIndex_frame c b :
  let b' := snd (computeSimpleVocIndex c b) in
  baselineEstablished b' = baselineEstablished b /\
  gasBaseline b' = gasBaseline b /\
  lastWindowUpdate b' = lastWindowUpdate b.
Proof.
  unfold computeSimpleVocIndex.
  destruct (negb (baselineEstablished b) || F32.isnan (gasBaseline b)
            || F32.leb (gasBaseline b) f0); simpl; auto.
Qed.

(** ** One sampling cycle, field by field *)

Section CycleFacts.

Variable powf : float -> float -> float.

Lemma sampleCycle_fields inp g :
  let t := now inp in
  let gas := cycleGas inp in
  let e := establishBaseline t gas (baseline g) in
  let r := resetWindow t gas (fst e) in
  let k := computeSimpleVocIndex gas (fst r) in
  let save := shouldSave t (accuracy (dIaq inp)) g in
  let g' := fst (sampleCycle powf inp g) in
  let o := snd (sampleCycle powf inp g) in
  baseline g' = snd k /\
  lastStateSave g' = (if save then t else lastStateSave g) /\
  lastUpdate g' = t /\
  simpleVocIndex (out_vals o) = fst k /\
  iaqAccuracy (out_vals o) = accuracy (dIaq inp) /\
  iaq (out_vals o) = signal (dIaq inp) /\
  pressure_hPa (out_vals o) = normalizePressure (signal (dPress inp)) /\
  gas_kOhm (out_vals o) = gas /\
  gasMinWindow_kOhm (out_vals o) = gasMinWindow (snd k) /\
  out_shown o = updateDynamicUI (out_vals o) /\
  out_label o = classifySimpleVoc (fst k) /\
  out_baselineSet o = snd e /\
  out_windowReset o = snd r /\
  out_saved o = (if save then Some (getStateOk inp) else None).
Proof.
  unfold sampleCycle, cycleGas.
  destruct (establishBaseline _ _ _) as [b1 locked].
  destruct (resetWindow _ _ _) as [b2 reset].
  destruct (computeSimpleVocIndex _ _) as [index b3].
  simpl. repeat split; reflexivity.
Qed.

Lemma establishBaseline_lock t gas b :
  baselineEstablished b = false -> BASELINE_DELAY_MS < t ->
  establishBaseline t gas b =
  ({| baselineEstablished := true; gasBaseline := gas;
      gasMinWindow := gas; lastWindowUpdate := lastWindowUpdate b |}, true).
Proof.
  intros He Ht. unfold establishBaseline. rewrite He.
  apply Z.ltb_lt in Ht. rewrite Ht. reflexivity.
Qed.

Lemma resetWindow_frame t gas b :
  let b' := fst (resetWindow t gas b) in
  baselineEstablished b' = baselineEstablished b /\
  gasBaseline b' = gasBaseline b /\
  (gasMinWindow b' = gas \/ gasMinWindow b' = gasMinWindow b).
Proof.
  unfold resetWindow. destruct (baselineEstablished b && _); simpl; auto.
Qed.

(** Tracking the minimum against a window that already holds the reading
    changes nothing. *)
Lemma computeSimpleVocIndex_window_same c b :
  gasMinWindow b = c -> gasMinWindow (snd (computeSimpleVocIndex c b)) = c.
Proof.
  intros Hw. unfold computeSimpleVocIndex.
  destruct (negb (baselineEstablished b) || F32.isnan (gasBaseline b)
            || F32.leb (gasBaseline b) f0); simpl; auto.
  rewrite Hw. destruct (F32.isnan c); destruct (F32.ltb c c); reflexivity.
Qed.

(** A cycle at or before the warm-up delay leaves an unestablished
    baseline as it is. *)
Lemma sampleCycle_cold inp g :
  baselineEstablished (baseline g) = false ->
  now inp <= BASELINE_DELAY_MS ->
  baseline (fst (sampleCycle powf inp g)) = baseline g /\
  out_baselineSet (snd (sampleCycle powf inp g)) = false /\
  F32.isnan (simpleVocIndex (out_vals (snd (sampleCycle powf inp g)))) = true.
Proof.
  intros He Ht.
  destruct (sampleCycle_fields inp g)
    as (Hb & _ & _ & Hi & _ & _ & _ & _ & _ & _ & _ & Hs & _).
  rewrite Hb, Hs, Hi.
  unfold establishBaseline. rewrite He.
  replace (BASELINE_DELAY_MS <? now inp) with false
    by (symmetry; apply Z.ltb_ge; exact Ht).
  simpl. unfold resetWindow. rewrite He. simpl.
  rewrite computeSimpleVocIndex_closed by auto. auto.
Qed.

(** The first cycle after the delay locks the baseline at its reading. *)
Lemma sampleCycle_lock inp g :
  baselineEstablished (baseline g) = false ->
  BASELINE_DELAY_MS < now inp ->
  let b' := baseline (fst (sampleCycle powf inp g)) in
  baselineEstablished b' = true /\
  gasBaseline b' = cycleGas inp /\
  gasMinWindow b' = cycleGas inp /\
  out_baselineSet (snd (sampleCycle powf inp g)) = true.
Proof.
  intros He Ht.
  destruct (sampleCycle_fields inp g)
    as (Hb & _ & _ & _ & _ & _ & _ & _ & _ & _ & _ & Hs & _).
  cbv zeta. rewrite Hb, Hs.
  rewrite (establishBaseline_lock _ _ _ He Ht). simpl fst. simpl snd.
  set (b1 := {| baselineEstablished := true; gasBaseline := cycleGas inp;
                gasMinWindow := cycleGas inp;
                lastWindowUpdate := lastWindowUpdate (baseline g) |}).
  destruct (resetWindow_frame (now inp) (cycleGas inp) b1) as (R1 & R2 & R3).
  destruct (computeSimpleVocIndex_frame (cycleGas inp)
              (fst (resetWindow (now inp) (cycleGas inp) b1))) as (F1 & F2 & _).
  rewrite F1, F2, R1, R2. repeat split; try reflexivity.
  apply computeSimpleVocIndex_window_same.
  destruct R3 as [R3|R3]; rewrite R3; reflexivity.
Qed.

(** Once established, the baseline is kept by every later cycle. *)
Lemma sampleCycle_keep inp g :
  baselineEstablished (baseline g) = true ->
  let b' := baseline (fst (sampleCycle powf inp g)) in
  baselineEstablished b' = true /\
  gasBaseline b' = gasBaseline (baseline g) /\
  out_baselineSet (snd (sampleCycle powf inp g)) = false.
Proof.
  intros He.
  destruct (sampleCycle_fields inp g)
    as (Hb & _ & _ & _ & _ & _ & _ & _ & _ & _ & _ & Hs & _).
  cbv zeta. rewrite Hb, Hs.
  destruct (computeSimpleVocIndex_frame (cycleGas inp)
    (fst (resetWindow (now inp) (cycleGas inp)
       (fst (establishBaseline (now inp) (cycleGas inp) (baseline g))))))
    as (F1 & F2 & _).
  rewrite F1, F2.
  unfold establishBaseline. rewrite He. simpl.
  unfold resetWindow. rewrite He.
  destruct (true && _); simpl; auto.
Qed.

Lemma runCycles_app cs1 cs2 g :
  runCycles powf (cs1 ++ cs2) g =
  (fst (runCycles powf cs2 (fst (runCycles powf cs1 g))),
   snd (runCycles powf cs1 g)
     ++ snd (runCycles powf cs2 (fst (runCycles powf cs1 g)))).
Proof.
  revert g; induction cs1 as [|c cs1 IH]; intros g; cbn [runCycles app fst snd].
  - now destruct (runCycles powf cs2 g).
  - destruct (sampleCycle powf c g) as [g1 o]. rewrite IH.
    destruct (runCycles powf cs1 g1) as [g2 os]. cbn [fst snd]. reflexivity.
Qed.

Lemma runCycles_cons c cs g :
  runCycles powf (c :: cs) g =
  (fst (runCycles powf cs (fst (sampleCycle powf c g))),
   snd (sampleCycle powf c g)
     :: snd (runCycles powf cs (fst (sampleCycle powf c g)))).
Proof.
  cbn [runCycles]. destruct (sampleCycle powf c g) as [g1 o].
  cbn [fst snd]. now destruct (runCycles powf cs g1).
Qed.

Lemma runCycles_cold cs g :
  baselineEstablished (baseline g) = false ->
  Forall (fun c => now c <= BASELINE_DELAY_MS) cs ->
  baseline (fst (runCycles powf cs g)) = baseline g /\
  map out_baselineSet (snd (runCycles powf cs g))
    = repeat false (List.length cs) /\
  Forall (fun o => F32.isnan (simpleVocIndex (out_vals o)) = true)
    (snd (runCycles powf cs g)).
Proof.
  intros He Hall; revert g He; induction Hall as [|c cs Hc Hall IH];
    intros g He.
  - simpl; auto.
  - rewrite runCycles_cons. simpl fst. simpl snd.
    destruct (sampleCycle_cold c g He Hc) as (Hb & Hs & Hn).
    destruct (IH (fst (sampleCycle powf c g))) as (IH1 & IH2 & IH3).
    { now rewrite Hb. }
    rewrite IH1, Hb. simpl. rewrite Hs, IH2. auto.
Qed.

Lemma runCycles_keep cs g :
  baselineEstablished (baseline g) = true ->
  baselineEstablished (baseline (fst (runCycles powf cs g))) = true /\
  gasBaseline (baseline (fst (runCycles powf cs g)))
    = gasBaseline (baseline g) /\
  map out_baselineSet (snd (runCycles powf cs g))
    = repeat false (List.length cs).
Proof.
  revert g; induction cs as [|c cs IH]; intros g He.
  - simpl; auto.
  - rewrite runCycles_cons. simpl fst. simpl snd.
    destruct (sampleCycle_keep c g He) as (H1 & H2 & H3).
    destruct (IH _ H1) as (IH1 & IH2 & IH3).
    rewrite IH1, IH2, H2. simpl. rewrite H3, IH3. auto.
Qed.

End CycleFacts.


(** ** The baseline tracker over a run of cycles *)

Section Tracker.

Variable powf : float -> float -> float.

(** C2, as amended: in every run of sampling cycles that starts
    unestablished, the baseline is locked exactly once, at the first cycle
    whose time is strictly after [BASELINE_DELAY_MS] (2 minutes of
    [millis()]): after the cycles before it the tracker is still
    unestablished and every index is NaN; at that cycle [gasBaseline] and
    [gasMinWindow] both become the cycle's reading in kOhm; after any later
    cycles the tracker is established with the same baseline; and the lock
    is reported by that cycle and by no other. *)
Theorem baseline_locked_once_after_delay
  (pre post : list LoopInput) (c : LoopInput) (g : Globals) :
  baselineEstablished (baseline g) = false ->
  Forall (fun c' => now c' <= BASELINE_DELAY_MS) pre ->
  BASELINE_DELAY_MS < now c ->
  let before := runCycles powf pre g in
  let at_c := runCycles powf (pre ++ [c]) g in
  let after := runCycles powf (pre ++ c :: post) g in
  (baselineEstablished (baseline (fst before)) = false /\
   Forall (fun o => F32.isnan (simpleVocIndex (out_vals o)) = true)
     (snd before))
  /\ (baselineEstablished (baseline (fst at_c)) = true /\
      gasBaseline (baseline (fst at_c)) = cycleGas c /\
      gasMinWindow (baseline (fst at_c)) = cycleGas c)
  /\ (baselineEstablished (baseline (fst after)) = true /\
      gasBaseline (baseline (fst after)) = cycleGas c)
  /\ map out_baselineSet (snd after)
     = repeat false (List.length pre)
         ++ true :: repeat false (List.length post).
Proof.
  intros He Hpre Hc; cbv zeta.
  destruct (runCycles_cold powf pre g He Hpre) as (B1 & B2 & B3).
  set (g1 := fst (runCycles powf pre g)) in *.
  assert (Eb : baselineEstablished (baseline g1) = false) by now rewrite B1.
  destruct (sampleCycle_lock powf c g1 Eb Hc) as (L1 & L2 & L3 & L4).
  destruct (runCycles_keep powf post _ L1) as (K1 & K2 & K3).
  rewrite !runCycles_app, !runCycles_cons. cbn [fst snd runCycles].
  fold g1. rewrite K1, K2, L2, map_app. cbn [map]. rewrite B2, L4, K3.
  repeat split; auto.
Qed.

(** A pass of [loop] either runs [sampleCycle], on globals that the buttons
    changed at most in [lastUpdate], or leaves the tracker and the time of
    the last save as they were. *)
Lemma loop_samples_or_skips inp g :
  (exists gC,
     baseline gC = baseline g /\ lastStateSave gC = lastStateSave g /\
     fst (loop powf inp g) = fst (sampleCycle powf inp gC) /\
     out_cycle (snd (loop powf inp g)) = Some (snd (sampleCycle powf inp gC)))
  \/ (out_cycle (snd (loop powf inp g)) = None /\
      baseline (fst (loop powf inp g)) = baseline g /\
      lastStateSave (fst (loop powf inp g)) = lastStateSave g).
Proof.
  unfold loop.
  set (gA := if btnA inp then set_lastUpdate 0 g else g).
  assert (HA : baseline gA = baseline g /\ lastStateSave gA = lastStateSave g)
    by (unfold gA; now destruct (btnA inp)).
  set (rc := if btnC inp
             then let '(ok, g') := initBsec2 inp gA in (Some ok, g')
             else (None, gA)).
  assert (HC : baseline (snd rc) = baseline g /\
               lastStateSave (snd rc) = lastStateSave g).
  { unfold rc, initBsec2. destruct (btnC inp); simpl; auto.
    destruct (negb (beginLow inp) && negb (beginHigh inp)); simpl; auto.
    destruct (negb (subscribeOk inp)); simpl; auto. }
  destruct rc as [re gC]. simpl in HC. destruct HC as [HC1 HC2].
  destruct (got inp && _).
  - left. exists gC. destruct (sampleCycle powf inp gC) as [g' o]. simpl. auto.
  - right. destruct (negb (got inp)); simpl; auto.
Qed.

(** Established is never left: whatever the buttons (button C included)
    and the sensor do in a pass of [loop], an established baseline stays
    established with the same value. *)
Lemma loop_keeps_established inp g :
  baselineEstablished (baseline g) = true ->
  baselineEstablished (baseline (fst (loop powf inp g))) = true /\
  gasBaseline (baseline (fst (loop powf inp g))) = gasBaseline (baseline g).
Proof.
  intros He.
  destruct (loop_samples_or_skips inp g)
    as [(gC & Hb & _ & Hg & _) | (_ & Hb & _)].
  - rewrite Hg. rewrite <- Hb in He.
    destruct (sampleCycle_keep powf inp gC He) as (K1 & K2 & _).
    now rewrite K1, K2, Hb.
  - now rewrite Hb.
Qed.

Lemma runLoop_keeps_established ps g :
  baselineEstablished (baseline g) = true ->
  baselineEstablished (baseline (fst (runLoop powf ps g))) = true /\
  gasBaseline (baseline (fst (runLoop powf ps g))) = gasBaseline (baseline g).
Proof.
  revert g; induction ps as [|p ps IH]; intros g He; [simpl; auto|].
  cbn [runLoop].
  destruct (loop_keeps_established p g He) as (H1 & H2).
  destruct (loop powf p g) as [g1 o]. simpl in H1, H2.
  destruct (IH g1 H1) as (I1 & I2).
  destruct (runLoop powf ps g1) as [g2 os]. simpl in *.
  rewrite I1, I2, H2. auto.
Qed.

(** C1, as amended: the reinitialize request (button C, which calls
    [initBsec2]) never touches the baseline tracker.  [initBsec2] leaves the
    established flag, the baseline, the window minimum, the window time
    stamp and the time of the last save as they were, and only zeroes
    [lastUpdate] when the sensor setup succeeds; consequently no run of
    passes of [loop], button C included, takes an established baseline back
    to unestablished or changes its value. *)
Theorem reinitialize_keeps_baseline :
  (forall inp g,
     baseline (snd (initBsec2 inp g)) = baseline g /\
     lastStateSave (snd (initBsec2 inp g)) = lastStateSave g /\
     lastUpdate (snd (initBsec2 inp g))
       = (if fst (initBsec2 inp g) then 0 else lastUpdate g))
  /\ (forall ps g,
        baselineEstablished (baseline g) = true ->
        baselineEstablished (baseline (fst (runLoop powf ps g))) = true /\
        gasBaseline (baseline (fst (runLoop powf ps g)))
          = gasBaseline (baseline g)).
Proof.
  split.
  - intros inp g. unfold initBsec2.
    destruct (negb (beginLow inp) && negb (beginHigh inp)); simpl; auto.
    destruct (negb (subscribeOk inp)); simpl; auto.
  - intros ps g He. now apply runLoop_keeps_established.
Qed.

End Tracker.

(** ** The window, the save schedule and the display in one cycle *)

Section Cycle.

Variable powf : float -> float -> float.

Lemma resetWindow_due t gas b :
  baselineEstablished b
  && (WINDOW_UPDATE_INTERVAL_MS <? usub t (lastWindowUpdate b)) = true ->
  resetWindow t gas b
  = ({| baselineEstablished := baselineEstablished b;
        gasBaseline := gasBaseline b;
        gasMinWindow := gas;
        lastWindowUpdate := t |}, true).
Proof. intros H. unfold resetWindow. now rewrite H. Qed.

Lemma resetWindow_not_due t gas b :
  baselineEstablished b
  && (WINDOW_UPDATE_INTERVAL_MS <? usub t (lastWindowUpdate b)) = false ->
  resetWindow t gas b = (b, false).
Proof. intros H. unfold resetWindow. now rewrite H. Qed.

(** C5: in a sampling cycle in which the tracker is established (already,
    or locked by this very cycle) and more than [WINDOW_UPDATE_INTERVAL_MS]
    (30 s) have passed since [lastWindowUpdate], the window is reset: the
    window minimum after the cycle is this cycle's reading, whatever lower
    value it held before, and [lastWindowUpdate] becomes the cycle's time, so
    the next interval is measured from this reset.  The reset comes before
    the minimum tracking of [computeSimpleVocIndex] in the cycle. *)
Theorem window_reset_takes_current_reading inp g :
  let t := now inp in
  let gas := cycleGas inp in
  let est := baselineEstablished (baseline g) || (BASELINE_DELAY_MS <? t) in
  let due :=
    WINDOW_UPDATE_INTERVAL_MS <? usub t (lastWindowUpdate (baseline g)) in
  let g' := fst (sampleCycle powf inp g) in
  let o := snd (sampleCycle powf inp g) in
  out_windowReset o = est && due
  /\ (out_windowReset o = true ->
      gasMinWindow (baseline g') = gas /\
      gasMinWindow_kOhm (out_vals o) = gas /\
      lastWindowUpdate (baseline g') = t)
  /\ (out_windowReset o = false ->
      lastWindowUpdate (baseline g') = lastWindowUpdate (baseline g))
  /\ baseline g'
     = snd (computeSimpleVocIndex gas
              (fst (resetWindow t gas
                      (fst (establishBaseline t gas (baseline g)))))).
Proof.
  cbv zeta.
  destruct (sampleCycle_fields powf inp g)
    as (Hb & _ & _ & _ & _ & _ & _ & _ & Hw & _ & _ & _ & Hr & _).
  rewrite Hb, Hr, Hw.
  set (b1 := fst (establishBaseline (now inp) (cycleGas inp) (baseline g))).
  assert (E1 : baselineEstablished b1
               = baselineEstablished (baseline g)
                 || (BASELINE_DELAY_MS <? now inp)).
  { unfold b1, establishBaseline.
    destruct (baselineEstablished (baseline g)) eqn:E; simpl;
      [now rewrite E|]. destruct (BASELINE_DELAY_MS <? now inp); simpl; auto. }
  assert (E2 : lastWindowUpdate b1 = lastWindowUpdate (baseline g)).
  { unfold b1, establishBaseline. destruct (negb _ && _); reflexivity. }
  rewrite <- E1, <- E2.
  destruct (baselineEstablished b1
            && (WINDOW_UPDATE_INTERVAL_MS
                  <? usub (now inp) (lastWindowUpdate b1))) eqn:D.
  - rewrite (resetWindow_due _ (cycleGas inp) _ D). cbn [fst snd].
    set (b2 := {| baselineEstablished := baselineEstablished b1;
                  gasBaseline := gasBaseline b1;
                  gasMinWindow := cycleGas inp;
                  lastWindowUpdate := now inp |}).
    destruct (computeSimpleVocIndex_frame (cycleGas inp) b2) as (_ & _ & F3).
    rewrite F3, (computeSimpleVocIndex_window_same (cycleGas inp) b2 eq_refl).
    repeat split; auto; discriminate.
  - rewrite (resetWindow_not_due _ (cycleGas inp) _ D). cbn [fst snd].
    destruct (computeSimpleVocIndex_frame (cycleGas inp) b1) as (_ & _ & F3).
    rewrite F3. repeat split; auto; discriminate.
Qed.

Lemma shouldSave_iff t acc g :
  shouldSave t acc g = true <->
  acc = 3 /\ SAVE_PERIOD_MS <= usub t (lastStateSave g).
Proof.
  unfold shouldSave. rewrite andb_true_iff, Z.eqb_eq, Z.leb_le. tauto.
Qed.

Lemma sampleCycle_save inp g :
  let t := now inp in
  let save := shouldSave t (accuracy (dIaq inp)) g in
  out_saved (snd (sampleCycle powf inp g))
    = (if save then Some (getStateOk inp) else None) /\
  lastStateSave (fst (sampleCycle powf inp g))
    = (if save then t else lastStateSave g).
Proof.
  destruct (sampleCycle_fields powf inp g)
    as (_ & Hs & _ & _ & _ & _ & _ & _ & _ & _ & _ & _ & _ & Ho).
  cbv zeta. now rewrite Hs, Ho.
Qed.

Lemma runCycles_spaced cs g :
  spaced (lastStateSave g) (savedAt cs (snd (runCycles powf cs g))).
Proof.
  revert g; induction cs as [|c cs IH]; intros g; [exact I|].
  rewrite runCycles_cons. cbn [snd savedAt].
  destruct (sampleCycle_save c g) as (Ho & Hs).
  specialize (IH (fst (sampleCycle powf c g))).
  rewrite Hs in IH. rewrite Ho.
  destruct (shouldSave (now c) (accuracy (dIaq c)) g) eqn:E.
  - apply shouldSave_iff in E. cbn [spaced]. tauto.
  - exact IH.
Qed.

(** C6: in every sampling cycle the state is saved exactly when the IAQ
    accuracy equals 3 and at least [SAVE_PERIOD_MS] (5 minutes) have passed
    since [lastStateSave]; then [saveState] is called and [lastStateSave]
    becomes the cycle's time whether or not the blob was written; otherwise
    nothing is saved and [lastStateSave] is kept.  So an accuracy below 3
    never saves, and in every run of cycles each save comes at least
    [SAVE_PERIOD_MS] after the one before. *)
Theorem save_when_accurate_and_due :
  (forall inp g,
     let t := now inp in
     let acc := accuracy (dIaq inp) in
     let g' := fst (sampleCycle powf inp g) in
     let o := snd (sampleCycle powf inp g) in
     (shouldSave t acc g = true <->
        acc = 3 /\ SAVE_PERIOD_MS <= usub t (lastStateSave g))
     /\ (shouldSave t acc g = true ->
         out_saved o = Some (getStateOk inp) /\ lastStateSave g' = t)
     /\ (shouldSave t acc g = false ->
         out_saved o = None /\ lastStateSave g' = lastStateSave g)
     /\ (acc < 3 -> shouldSave t acc g = false))
  /\ (forall cs g,
        spaced (lastStateSave g) (savedAt cs (snd (runCycles powf cs g)))).
Proof.
  split; [|exact runCycles_spaced].
  intros inp g; cbv zeta.
  destruct (sampleCycle_save inp g) as (Ho & Hs). rewrite Ho, Hs.
  split; [apply shouldSave_iff|].
  split; [intros ->; auto|].
  split; [intros ->; auto|].
  intros Hacc. unfold shouldSave.
  replace (accuracy (dIaq inp) =? 3) with false; [reflexivity|].
  symmetry; apply Z.eqb_neq; lia.
Qed.

Lemma sampleCycle_shown inp g :
  let o := snd (sampleCycle powf inp g) in
  out_shown o
  = if accuracy (dIaq inp) <? 2
    then Fallback (simpleVocIndex (out_vals o))
           (classifySimpleVoc (simpleVocIndex (out_vals o)))
    else Vendor (signal (dIaq inp)) (accuracy (dIaq inp)).
Proof.
  destruct (sampleCycle_fields powf inp g)
    as (_ & _ & _ & _ & Ha & Hq & _ & _ & _ & Hu & _).
  cbv zeta. rewrite Hu. unfold updateDynamicUI. now rewrite Ha, Hq.
Qed.

Lemma sampleCycle_is_fallback inp g :
  is_fallback (out_shown (snd (sampleCycle powf inp g)))
  = (accuracy (dIaq inp) <? 2).
Proof.
  rewrite sampleCycle_shown. now destruct (accuracy (dIaq inp) <? 2).
Qed.

(** C7: in every sampling cycle the info line shows the simple VOC index
    (the fallback) exactly when the IAQ accuracy of that cycle is below 2,
    and the vendor IAQ otherwise.  The choice depends on that cycle's
    accuracy alone, whatever the globals: over any run of cycles the
    sequence of choices is the sequence of tests [accuracy < 2], so a later
    drop of the accuracy below 2 shows the fallback again at once. *)
Theorem selection_follows_current_accuracy :
  (forall inp g,
     let o := snd (sampleCycle powf inp g) in
     out_shown o
     = (if accuracy (dIaq inp) <? 2
        then Fallback (simpleVocIndex (out_vals o))
               (classifySimpleVoc (simpleVocIndex (out_vals o)))
        else Vendor (signal (dIaq inp)) (accuracy (dIaq inp)))
     /\ (is_fallback (out_shown o) = true <-> accuracy (dIaq inp) < 2))
  /\ (forall inp1 inp2 g1 g2,
        accuracy (dIaq inp1) = accuracy (dIaq inp2) ->
        is_fallback (out_shown (snd (sampleCycle powf inp1 g1)))
        = is_fallback (out_shown (snd (sampleCycle powf inp2 g2))))
  /\ (forall cs g,
        map (fun o => is_fallback (out_shown o)) (snd (runCycles powf cs g))
        = map (fun c => accuracy (dIaq c) <? 2) cs).
Proof.
  split; [|split].
  - intros inp g; cbv zeta. split; [apply sampleCycle_shown|].
    rewrite sampleCycle_is_fallback. apply Z.ltb_lt.
  - intros inp1 inp2 g1 g2 H. now rewrite !sampleCycle_is_fallback, H.
  - intros cs; induction cs as [|c cs IH]; intros g; [reflexivity|].
    rewrite runCycles_cons. cbn [snd map].
    now rewrite sampleCycle_is_fallback, IH.
Qed.

End Cycle.

(** ** The simple VOC index and its classification *)

(** C3, as amended: [computeSimpleVocIndex] returns NaN exactly when the
    baseline is not established, or the stored baseline is NaN or not
    positive, or NaN comes out of the arithmetic itself, which happens when
    the reading is NaN or the baseline is plus infinity.  In every other
    case the result is [((baseline - current) / baseline) * 100] in binary32
    arithmetic, replaced by 0 when negative.  The result is never below
    zero, and a reading above the baseline gives a zero. *)
Theorem computeSimpleVocIndex_spec (c : float) (b : Baseline) :
  let r := fst (computeSimpleVocIndex c b) in
  (F32.isnan r = true <->
     baselineEstablished b = false \/ F32.isnan (gasBaseline b) = true \/
     F32.leb (gasBaseline b) f0 = true \/
     F32.isnan c = true \/ gasBaseline b = F32.INFINITY)
  /\ (F32.isnan r = false -> r = indexFormula (gasBaseline b) c)
  /\ F32.ltb r f0 = false
  /\ (F32.valid (gasBaseline b) = true -> F32.valid c = true ->
      F32.isnan r = false -> F32.ltb (gasBaseline b) c = true ->
      F32.is_zero r = true).
Proof.
  intros r.
  destruct (negb (baselineEstablished b) || F32.isnan (gasBaseline b)
            || F32.leb (gasBaseline b) f0) eqn:G.
  - (* the guard returns NAN *)
    assert (Hr : r = F32.NAN).
    { unfold r, computeSimpleVocIndex. now rewrite G. }
    rewrite Hr. repeat split; try discriminate.
    intros _.
    apply orb_true_iff in G; destruct G as [G|G]; [|tauto].
    apply orb_true_iff in G; destruct G as [G|G]; [|tauto].
    apply negb_true_iff in G; tauto.
  - apply orb_false_iff in G; destruct G as [G G3].
    apply orb_false_iff in G; destruct G as [G1 G2].
    apply negb_false_iff in G1.
    assert (Hr : r = indexFormula (gasBaseline b) c)
      by (now apply computeSimpleVocIndex_open).
    rewrite Hr. split; [|split; [|split]].
    + destruct (gasBaseline b) as [sb|sb| |sb mb eb] eqn:Eb; try discriminate.
      * (* an infinite baseline *)
        destruct sb; [discriminate|].
        split; [intros _; right; right; right; now right|intros _].
        destruct c as [[]|[]| |[] m e]; reflexivity.
      * (* a finite baseline *)
        destruct sb; [discriminate|].
        unfold indexFormula. rewrite clamp_isnan. split.
        -- intros H. destruct (F32.isnan c) eqn:Ec; [tauto|].
           now rewrite rawIndex_not_nan in H.
        -- intros [H|[H|[H|[H|H]]]]; try congruence; try discriminate.
           destruct c; try discriminate; reflexivity.
    + reflexivity.
    + apply clamp_not_negative.
    + intros Vb Vc Hn Hlt. unfold indexFormula.
      apply clamp_negative_zero.
      destruct (gasBaseline b) as [sb|sb| |sb mb eb] eqn:Eb; try discriminate.
      * destruct sb; [discriminate|]. destruct c as [|[]| |]; discriminate.
      * destruct sb; [discriminate|].
        apply (rawIndex_signed false mb eb c true).
        now apply sub_lt_negative.
Qed.

Lemma geb_negb_ltb x k :
  F32.isnan x = false -> F32.isnan k = false ->
  F32.geb x k = negb (F32.ltb x k).
Proof. intros Hx Hk. unfold F32.geb. now apply (leb_negb_ltb x k). Qed.

Lemma label_text_injective l1 l2 : label_text l1 = label_text l2 -> l1 = l2.
Proof. destruct l1, l2; simpl; intros H; try reflexivity; discriminate H. Qed.

(** C4: a NaN index is labelled Building and no number is; a number is
    labelled by the first bound it is below: Excellent below 2, Normal from
    2 and below 10, Elevated from 10 and below 25, Poor from 25 and below
    50, Severe from 50 on.  Each label is given on exactly its band, so 25
    itself is Poor; and the index of a baseline of 100 kOhm and a reading of
    75 kOhm is 25, hence Poor.  The six texts returned are pairwise
    different. *)
Theorem classifyLabel_bands (x : float) :
  (F32.isnan x = true -> classifyLabel x = Building)
  /\ (F32.isnan x = false ->
      classifyLabel x <> Building
      /\ (classifyLabel x = Excellent <-> F32.ltb x f2 = true)
      /\ (classifyLabel x = Normal <->
          F32.geb x f2 = true /\ F32.ltb x f10 = true)
      /\ (classifyLabel x = Elevated <->
          F32.geb x f10 = true /\ F32.ltb x f25 = true)
      /\ (classifyLabel x = Poor <->
          F32.geb x f25 = true /\ F32.ltb x f50 = true)
      /\ (classifyLabel x = Severe <-> F32.geb x f50 = true))
  /\ classifyLabel f25 = Poor
  /\ indexFormula f100 (F32.of_Z 75) = f25
  /\ classifySimpleVoc x = label_text (classifyLabel x)
  /\ (forall l1 l2, label_text l1 = label_text l2 -> l1 = l2).
Proof.
  split; [|split; [|repeat split; try exact label_text_injective]].
  - intros H. unfold classifyLabel. now rewrite H.
  - intros H.
    rewrite !(geb_negb_ltb x) by (exact H || reflexivity).
    assert (T1 : F32.ltb x f2 = true -> F32.ltb x f10 = true)
      by (intros L; now apply (ltb_trans x f2 f10)).
    assert (T2 : F32.ltb x f10 = true -> F32.ltb x f25 = true)
      by (intros L; now apply (ltb_trans x f10 f25)).
    assert (T3 : F32.ltb x f25 = true -> F32.ltb x f50 = true)
      by (intros L; now apply (ltb_trans x f25 f50)).
    unfold classifyLabel. rewrite H.
    destruct (F32.ltb x f2), (F32.ltb x f10), (F32.ltb x f25),
      (F32.ltb x f50); simpl;
      try (specialize (T1 eq_refl)); try (specialize (T2 eq_refl));
      try (specialize (T3 eq_refl)); try discriminate;
      repeat split; intros; try discriminate; try tauto;
      match goal with
      | Hc : _ /\ _ |- _ => destruct Hc; discriminate
      end.
Qed.

(** ** Unit normalisation *)

Lemma div_finite_isnan x sy my ey :
  F32.isnan (F32.div x (S754_finite sy my ey)) = F32.isnan x.
Proof.
  destruct (F32.isnan x) eqn:E.
  - destruct x; try discriminate; reflexivity.
  - destruct (not_nan_signed x E) as [s Hs].
    eapply signed_as_not_nan, div_signed, Hs.
Qed.

Lemma normalizePressure_isnan p :
  F32.isnan (normalizePressure p) = F32.isnan p.
Proof.
  unfold normalizePressure. destruct (F32.gtb p f5000); [|reflexivity].
  rewrite f100_finite. apply div_finite_isnan.
Qed.

Lemma normalizeGas_isnan r : F32.isnan (normalizeGas r) = F32.isnan r.
Proof.
  unfold normalizeGas.
  change f1000 with (S754_finite false 16384000 (-14)).
  apply div_finite_isnan.
Qed.

Section Units.

Variable powf : float -> float -> float.

(** C8: a raw pressure above 5000 is divided by 100, any other is kept;
    so 101325 becomes 1013.25, a number binary32 holds exactly, and 1013.25
    stays 1013.25.  The raw gas resistance is always divided by 1000.  This
    is what every sampling cycle reports as [pressure_hPa] and [gas_kOhm],
    and neither conversion turns a number into NaN. *)
Theorem unit_normalization :
  (forall p,
     (F32.gtb p f5000 = true -> normalizePressure p = F32.div p f100) /\
     (F32.gtb p f5000 = false -> normalizePressure p = p) /\
     F32.isnan (normalizePressure p) = F32.isnan p)
  /\ (normalizePressure (F32.of_Z 101325) = F32.of_ratio 101325 100 /\
      normalizePressure (F32.of_ratio 101325 100) = F32.of_ratio 101325 100 /\
      F32.of_ratio 101325 100 = S754_finite false 16601088 (-14) /\
      16601088 * 100 = 101325 * 2 ^ 14)
  /\ (forall r,
        normalizeGas r = F32.div r f1000 /\
        F32.isnan (normalizeGas r) = F32.isnan r)
  /\ (forall inp g,
        let o := snd (sampleCycle powf inp g) in
        pressure_hPa (out_vals o) = normalizePressure (signal (dPress inp)) /\
        gas_kOhm (out_vals o) = F32.div (signal (dGas inp)) f1000).
Proof.
  split; [|split; [|split]].
  - intros p. unfold normalizePressure at 1 2.
    repeat split; try (intros ->; reflexivity).
    apply normalizePressure_isnan.
  - repeat split.
  - intros r. split; [reflexivity|apply normalizeGas_isnan].
  - intros inp g; cbv zeta.
    destruct (sampleCycle_fields powf inp g)
      as (_ & _ & _ & _ & _ & _ & Hp & Hg & _).
    now rewrite Hp, Hg.
Qed.

Lemma establishBaseline_same_but_window t gas b1 b2 :
  same_but_window b1 b2 ->
  (fst (establishBaseline t gas b1) = fst (establishBaseline t gas b2) \/
   (same_but_window (fst (establishBaseline t gas b1))
      (fst (establishBaseline t gas b2)))) /\
  snd (establishBaseline t gas b1) = snd (establishBaseline t gas b2).
Proof.
  intros (H1 & H2 & H3). unfold establishBaseline. rewrite H1, H3.
  destruct (negb (baselineEstablished b2) && _); simpl; auto.
  split; [right|reflexivity]. repeat split; assumption.
Qed.

Lemma resetWindow_same_but_window t gas b1 b2 :
  same_but_window b1 b2 ->
  same_but_window (fst (resetWindow t gas b1)) (fst (resetWindow t gas b2)) /\
  snd (resetWindow t gas b1) = snd (resetWindow t gas b2).
Proof.
  intros (H1 & H2 & H3). unfold resetWindow. rewrite H1, H3.
  destruct (baselineEstablished b2 && _); simpl; repeat split; assumption.
Qed.

Lemma computeSimpleVocIndex_same_but_window c b1 b2 :
  same_but_window b1 b2 ->
  fst (computeSimpleVocIndex c b1) = fst (computeSimpleVocIndex c b2).
Proof.
  intros (H1 & H2 & H3). unfold computeSimpleVocIndex. rewrite H1, H2.
  destruct (negb (baselineEstablished b2) || F32.isnan (gasBaseline b2)
            || F32.leb (gasBaseline b2) f0); reflexivity.
Qed.

(** C10: the index does not depend on the window minimum.  Two tracker
    states with the same established flag and the same baseline give the
    same index for every reading, whatever their window minima;
    [computeSimpleVocIndex] changes nothing but the window minimum; and a
    whole sampling cycle started with another window minimum reports the
    same index, the same label and the same info line. *)
Theorem index_independent_of_window :
  (forall c est base w1 w2 l1 l2,
     fst (computeSimpleVocIndex c
            {| baselineEstablished := est; gasBaseline := base;
               gasMinWindow := w1; lastWindowUpdate := l1 |})
     = fst (computeSimpleVocIndex c
              {| baselineEstablished := est; gasBaseline := base;
                 gasMinWindow := w2; lastWindowUpdate := l2 |}))
  /\ (forall c b,
        let b' := snd (computeSimpleVocIndex c b) in
        baselineEstablished b' = baselineEstablished b /\
        gasBaseline b' = gasBaseline b /\
        lastWindowUpdate b' = lastWindowUpdate b)
  /\ (forall inp g w,
        let o1 := snd (sampleCycle powf inp g) in
        let o2 := snd (sampleCycle powf inp (with_gasMinWindow w g)) in
        simpleVocIndex (out_vals o1) = simpleVocIndex (out_vals o2) /\
        out_label o1 = out_label o2 /\
        out_shown o1 = out_shown o2).
Proof.
  split; [|split].
  - intros c est base w1 w2 l1 l2. unfold computeSimpleVocIndex. simpl.
    destruct (negb est || F32.isnan base || F32.leb base f0); reflexivity.
  - exact computeSimpleVocIndex_frame.
  - intros inp g w; cbv zeta.
    assert (K : fst (computeSimpleVocIndex (cycleGas inp)
                  (fst (resetWindow (now inp) (cycleGas inp)
                     (fst (establishBaseline (now inp) (cycleGas inp)
                             (baseline g))))))
              = fst (computeSimpleVocIndex (cycleGas inp)
                  (fst (resetWindow (now inp) (cycleGas inp)
                     (fst (establishBaseline (now inp) (cycleGas inp)
                             (baseline (with_gasMinWindow w g)))))))).
    { assert (S0 : same_but_window (baseline g)
                     (baseline (with_gasMinWindow w g))) by (repeat split).
      destruct (establishBaseline_same_but_window (now inp) (cycleGas inp)
                  _ _ S0) as ([S1|S1] & _).
      - now rewrite S1.
      - apply computeSimpleVocIndex_same_but_window.
        now apply resetWindow_same_but_window. }
    rewrite !sampleCycle_shown.
    destruct (sampleCycle_fields powf inp g)
      as (_ & _ & _ & Hi & _ & _ & _ & _ & _ & _ & Hl & _).
    destruct (sampleCycle_fields powf inp (with_gasMinWindow w g))
      as (_ & _ & _ & Hi' & _ & _ & _ & _ & _ & _ & Hl' & _).
    rewrite Hi, Hi', Hl, Hl', K. auto.
Qed.

End Units.

(** ** The altitude *)

Lemma div_eucl_mul_self (m : positive) (k : Z) :
  Z.div_eucl (Zpos m * k) (Zpos m) = (k, 0).
Proof.
  pose proof (Z.div_mul k (Zpos m) ltac:(lia)) as Hq.
  pose proof (Z.mod_mul k (Zpos m) ltac:(lia)) as Hr.
  rewrite (Z.mul_comm k) in Hq, Hr.
  unfold Z.div, Z.modulo in Hq, Hr.
  destruct (Z.div_eucl (Zpos m * k) (Zpos m)) as [q r].
  now subst.
Qed.

Lemma SFdiv_core_binary_self (m : positive) (e : Z) :
  SFdiv_core_binary F32.prec F32.emax (Zpos m) e (Zpos m) e
  = (2 ^ 24, -24, loc_Exact).
Proof.
  unfold SFdiv_core_binary.
  rewrite !Z.sub_diag.
  change (Z.min (fexp F32.prec F32.emax 0) 0) with (-24).
  change (0 - -24) with 24.
  rewrite Z.shiftl_mul_pow2 by lia.
  rewrite div_eucl_mul_self.
  unfold new_location, new_location_even, new_location_odd.
  destruct (Z.even (Zpos m)); reflexivity.
Qed.

(** A finite number other than zero divided by itself is exactly 1. *)
Lemma div_self s m e :
  F32.div (S754_finite s m e) (S754_finite s m e) = f1.
Proof.
  unfold F32.div, SFdiv. rewrite SFdiv_core_binary_self.
  rewrite xorb_nilpotent. reflexivity.
Qed.

(** ** Powers of two and brackets of real numbers *)

Lemma bpow_gt_0 e : (0 < bpow e)%R.
Proof. apply powerRZ_lt. lra. Qed.

Lemma bpow_add a b : bpow (a + b) = (bpow a * bpow b)%R.
Proof. apply powerRZ_add. lra. Qed.

Lemma bpow_succ e : bpow (e + 1) = (2 * bpow e)%R.
Proof. rewrite bpow_add. unfold bpow at 2. simpl. lra. Qed.

Lemma bpow_IZR n : 0 <= n -> bpow n = IZR (2 ^ n).
Proof.
  intros Hn. unfold bpow. rewrite <- (Z2Nat.id n Hn) at 1 2.
  rewrite <- pow_powerRZ. rewrite <- pow_IZR. reflexivity.
Qed.

Lemma bpow_ge_1 n : 0 <= n -> (1 <= bpow n)%R.
Proof.
  intros Hn. rewrite bpow_IZR by exact Hn. apply IZR_le.
  pose proof (Z.pow_pos_nonneg 2 n ltac:(lia) Hn). lia.
Qed.

Lemma bpow_le a b : a <= b -> (bpow a <= bpow b)%R.
Proof.
  intros H. replace b with (a + (b - a)) by lia. rewrite bpow_add.
  pose proof (bpow_gt_0 a). pose proof (bpow_ge_1 (b - a) ltac:(lia)).
  nra.
Qed.

Lemma bpow_lt a b : a < b -> (bpow a < bpow b)%R.
Proof.
  intros H. apply Rlt_le_trans with (bpow (a + 1)).
  - rewrite bpow_succ. pose proof (bpow_gt_0 a). lra.
  - apply bpow_le. lia.
Qed.

Lemma bpow_lt_inv a b : (bpow a < bpow b)%R -> a < b.
Proof.
  intros H. destruct (Z_lt_le_dec a b) as [L|L]; [exact L|].
  apply bpow_le in L. lra.
Qed.

Lemma F2R_0 e : F2R 0 e = 0%R.
Proof. unfold F2R. lra. Qed.

Lemma F2R_1 e : F2R 1 e = bpow e.
Proof. unfold F2R. lra. Qed.

Lemma F2R_succ m e : F2R (m + 1) e = (F2R m e + bpow e)%R.
Proof. unfold F2R. rewrite plus_IZR. lra. Qed.

Lemma F2R_double m e : F2R (2 * m) e = F2R m (e + 1).
Proof. unfold F2R. rewrite mult_IZR, bpow_succ. lra. Qed.

Lemma F2R_le m1 m2 e : m1 <= m2 -> (F2R m1 e <= F2R m2 e)%R.
Proof.
  intros H. unfold F2R. apply IZR_le in H. pose proof (bpow_gt_0 e). nra.
Qed.

Lemma F2R_lt_inv m1 m2 e : (F2R m1 e < F2R m2 e)%R -> m1 < m2.
Proof.
  intros H. destruct (Z_lt_le_dec m1 m2) as [L|L]; [exact L|].
  apply (F2R_le _ _ e) in L. lra.
Qed.

Lemma F2R_xO p e : F2R (Zpos p~0) e = F2R (Zpos p) (e + 1).
Proof. rewrite <- F2R_double. f_equal. Qed.

Lemma F2R_xI p e : F2R (Zpos p~1) e = (F2R (Zpos p) (e + 1) + bpow e)%R.
Proof.
  replace (Zpos p~1) with (2 * Zpos p + 1) by lia.
  now rewrite F2R_succ, F2R_double.
Qed.

(** One step of [shr] keeps the bracket. *)
Lemma shr_1_bracket mrs e x :
  0 <= shr_m mrs ->
  bracket (shr_m mrs) e (loc_of_shr_record mrs) x ->
  bracket (shr_m (shr_1 mrs)) (e + 1) (loc_of_shr_record (shr_1 mrs)) x.
Proof.
  destruct mrs as [m r s]. cbn [shr_m]. intros Hm.
  assert (Hb := bpow_gt_0 e).
  destruct m as [|p|p]; [| |lia]; [|destruct p as [p|p|]];
    destruct r, s; cbn [shr_1 shr_m loc_of_shr_record bracket orb];
    rewrite ?F2R_succ, ?F2R_xI, ?F2R_xO, ?F2R_1, ?F2R_0, ?bpow_succ;
    intros H; lra.
Qed.

(** ** Shifting a mantissa keeps the bracket *)

Lemma binade_mono k1 k2 x1 x2 :
  binade k1 x1 -> binade k2 x2 -> (x1 <= x2)%R -> k1 <= k2.
Proof.
  intros [L1 U1] [L2 U2] H.
  assert (B : (bpow (k1 - 1) < bpow k2)%R) by lra.
  apply bpow_lt_inv in B. lia.
Qed.

Lemma binade_unique k1 k2 x : binade k1 x -> binade k2 x -> k1 = k2.
Proof.
  intros H1 H2.
  pose proof (binade_mono _ _ _ _ H1 H2 (Rle_refl x)).
  pose proof (binade_mono _ _ _ _ H2 H1 (Rle_refl x)). lia.
Qed.

Lemma bracket_bounds m e l x :
  bracket m e l x -> (F2R m e <= x < F2R (m + 1) e)%R.
Proof.
  assert (Hb := bpow_gt_0 e).
  destruct l as [|[]]; cbn [bracket]; rewrite ?F2R_succ; intros H; lra.
Qed.

Lemma Zdigits2_bounds m :
  0 < m -> 2 ^ (Zdigits2 m - 1) <= m < 2 ^ Zdigits2 m.
Proof.
  destruct m as [|p|p]; try lia. intros _. apply digits2_pos_bounds.
Qed.

Lemma Zdigits2_pos m : 0 < m -> 0 < Zdigits2 m.
Proof. destruct m; simpl; lia. Qed.

Lemma bracket_binade m e l x :
  0 < m -> bracket m e l x -> binade (Zdigits2 m + e) x.
Proof.
  intros Hm Hb. apply bracket_bounds in Hb.
  destruct (Zdigits2_bounds m Hm) as [Lo Hi].
  pose proof (Zdigits2_pos m Hm) as Hd.
  assert (Be := bpow_gt_0 e).
  unfold binade. split.
  - replace (Zdigits2 m + e - 1) with ((Zdigits2 m - 1) + e) by lia.
    rewrite bpow_add, bpow_IZR by lia.
    apply IZR_le in Lo. unfold F2R in Hb. nra.
  - rewrite bpow_add, bpow_IZR by lia.
    assert (H1 : m + 1 <= 2 ^ Zdigits2 m) by lia.
    apply IZR_le in H1. unfold F2R in Hb. nra.
Qed.

Lemma iter_pos_count {A} (P : Z -> A -> Prop) (f : A -> A) :
  (forall k x, P k x -> P (k + 1) (f x)) ->
  forall p k x, P k x -> P (k + Zpos p) (SpecFloat.iter_pos f p x).
Proof.
  intros Hf; induction p as [p IH|p IH|]; intros k x Hx; cbn [SpecFloat.iter_pos].
  - replace (k + Zpos p~1) with (k + 1 + Zpos p + Zpos p) by lia.
    apply IH, IH, Hf, Hx.
  - replace (k + Zpos p~0) with (k + Zpos p + Zpos p) by lia.
    apply IH, IH, Hx.
  - apply Hf, Hx.
Qed.

Lemma loc_of_shr_record_of_loc m l :
  loc_of_shr_record (shr_record_of_loc m l) = l.
Proof. destruct l as [|[]]; reflexivity. Qed.

Lemma shr_bracket mrs e n x :
  0 <= shr_m mrs ->
  bracket (shr_m mrs) e (loc_of_shr_record mrs) x ->
  bracket (shr_m (fst (shr mrs e n))) (snd (shr mrs e n))
    (loc_of_shr_record (fst (shr mrs e n))) x /\
  0 <= shr_m (fst (shr mrs e n)) /\
  snd (shr mrs e n) = Z.max e (e + n).
Proof.
  intros Hm Hb. unfold shr. destruct n as [|p|p]; cbn [fst snd].
  - repeat split; auto; lia.
  - pose proof (iter_pos_count
        (fun k r => bracket (shr_m r) (e + k) (loc_of_shr_record r) x
                    /\ 0 <= shr_m r) shr_1) as I.
    destruct (I (fun k r H =>
                   conj (eq_ind _ (fun z => bracket _ z _ x)
                           (shr_1_bracket r (e + k) x (proj2 H) (proj1 H))
                           _ (eq_sym (Z.add_assoc e k 1)))
                        (shr_1_nonneg r (proj2 H)))
                p 0 mrs) as [B N].
    { rewrite Z.add_0_r. auto. }
    rewrite Z.add_0_l in B. repeat split; auto; lia.
  - repeat split; auto; lia.
Qed.

Lemma shr_fexp_bracket m e l x :
  0 <= m -> bracket m e l x ->
  let r := shr_fexp F32.prec F32.emax m e l in
  bracket (shr_m (fst r)) (snd r) (loc_of_shr_record (fst r)) x /\
  0 <= shr_m (fst r) /\
  snd r = Z.max e (fexp F32.prec F32.emax (Zdigits2 m + e)).
Proof.
  intros Hm Hb; cbv zeta. unfold shr_fexp.
  destruct (shr_bracket (shr_record_of_loc m l) e
              (fexp F32.prec F32.emax (Zdigits2 m + e) - e) x)
    as (B & N & E).
  - now rewrite shr_record_of_loc_m.
  - now rewrite shr_record_of_loc_m, loc_of_shr_record_of_loc.
  - repeat split; auto. rewrite E. lia.
Qed.

(** With an exponent not above the canonical one, [shr_fexp] lands on the
    canonical exponent of the bracketed number. *)
Lemma shr_fexp_canon m e l x k :
  binade k x -> 0 <= m -> bracket m e l x ->
  e <= fexp F32.prec F32.emax k ->
  let r := shr_fexp F32.prec F32.emax m e l in
  bracket (shr_m (fst r)) (fexp F32.prec F32.emax k)
    (loc_of_shr_record (fst r)) x /\
  0 <= shr_m (fst r) /\
  snd r = fexp F32.prec F32.emax k.
Proof.
  intros Hk Hm Hb He; cbv zeta.
  destruct (shr_fexp_bracket m e l x Hm Hb) as (B & N & E).
  assert (E' : snd (shr_fexp F32.prec F32.emax m e l)
               = fexp F32.prec F32.emax k).
  { rewrite E. destruct (Z.eq_dec m 0) as [->|Hnz].
    - apply bracket_bounds in Hb. rewrite F2R_1 in Hb.
      destruct Hk as [Lk Uk].
      assert (K : (bpow (k - 1) < bpow e)%R) by lra.
      apply bpow_lt_inv in K. cbn [Zdigits2].
      unfold fexp, emin, F32.prec, F32.emax in *. lia.
    - assert (Hp : 0 < m) by lia.
      pose proof (bracket_binade m e l x Hp Hb) as Hk'.
      rewrite (binade_unique _ _ _ Hk' Hk). lia. }
  rewrite E' in B. auto.
Qed.

(** ** [binary_round_aux] rounds at the canonical exponent *)

Lemma fexp_mono k1 k2 :
  k1 <= k2 -> fexp F32.prec F32.emax k1 <= fexp F32.prec F32.emax k2.
Proof. unfold fexp, emin, F32.prec, F32.emax. lia. Qed.

Lemma fexp_ge k : -149 <= fexp F32.prec F32.emax k.
Proof. unfold fexp, emin, F32.prec, F32.emax. lia. Qed.

(** Mantissa of a bracket at the canonical exponent. *)
Lemma canon_mantissa_bounds m l x k :
  binade k x -> 0 <= m -> bracket m (fexp F32.prec F32.emax k) l x ->
  m < 2 ^ 24 /\ (-149 < fexp F32.prec F32.emax k -> 2 ^ 23 <= m).
Proof.
  intros [Lk Uk] Hm Hb. apply bracket_bounds in Hb.
  set (E := fexp F32.prec F32.emax k) in *.
  assert (HE : E = Z.max (k - 24) (-149)) by reflexivity.
  assert (Be := bpow_gt_0 E).
  split.
  - destruct (Z_lt_le_dec k E) as [Hlt|Hge].
    + assert (B : (bpow k < bpow E)%R) by (apply bpow_lt; lia).
      assert (M : (F2R m E < F2R 1 E)%R) by (rewrite F2R_1; lra).
      apply F2R_lt_inv in M. lia.
    + assert (B : bpow k = F2R (2 ^ (k - E)) E).
      { unfold F2R. rewrite <- bpow_IZR, <- bpow_add by lia. f_equal. lia. }
      assert (M : (F2R m E < F2R (2 ^ (k - E)) E)%R) by lra.
      apply F2R_lt_inv in M.
      assert (2 ^ (k - E) <= 2 ^ 24) by (apply Z.pow_le_mono_r; lia). lia.
  - intros Hn.
    assert (B : bpow (k - 1) = F2R (2 ^ 23) E).
    { unfold F2R. rewrite <- bpow_IZR, <- bpow_add by lia. f_equal. lia. }
    assert (M : (F2R (2 ^ 23) E < F2R (m + 1) E)%R) by lra.
    apply F2R_lt_inv in M. lia.
Qed.

Lemma round_nearest_even_bounds m l :
  m <= round_nearest_even m l <= m + 1.
Proof. destruct l as [|[]]; simpl; try destruct (Z.even m); lia. Qed.

Lemma shr_zero e n :
  shr_m (fst (shr (shr_record_of_loc 0 loc_Exact) e n)) = 0.
Proof.
  destruct (shr_bracket (shr_record_of_loc 0 loc_Exact) e n 0%R)
    as (B & N & _).
  - simpl; lia.
  - simpl. now rewrite F2R_0.
  - apply bracket_bounds in B.
    set (m := shr_m _) in *. set (e' := snd _) in *.
    assert (M : (F2R m e' < F2R 1 e')%R).
    { rewrite F2R_1. pose proof (bpow_gt_0 e'). lra. }
    apply F2R_lt_inv in M. lia.
Qed.

Lemma Zdigits2_le_24 r : 0 < r < 2 ^ 24 -> Zdigits2 r <= 24.
Proof.
  intros H. destruct (Zdigits2_bounds r) as [Lo _]; [lia|].
  destruct (Z_le_gt_dec (Zdigits2 r) 24) as [|G]; auto.
  assert (2 ^ 24 <= 2 ^ (Zdigits2 r - 1)) by (apply Z.pow_le_mono_r; lia).
  lia.
Qed.

Lemma Zdigits2_ge_24 r : 2 ^ 23 <= r -> 24 <= Zdigits2 r.
Proof.
  intros H. destruct (Zdigits2_bounds r) as [_ Hi]; [lia|].
  destruct (Z_le_gt_dec 24 (Zdigits2 r)) as [|G]; auto.
  assert (2 ^ Zdigits2 r <= 2 ^ 23).
  { apply Z.pow_le_mono_r; try lia. }
  lia.
Qed.

(** The second half of [binary_round_aux], on a rounded canonical mantissa. *)
Lemma round_result_spec s r E :
  0 <= r <= 2 ^ 24 -> -149 <= E ->
  (let '(mrs, e) := shr_fexp F32.prec F32.emax r E loc_Exact in
   match shr_m mrs with
   | 0 => S754_zero s
   | Zpos m => if e <=? F32.emax - F32.prec then S754_finite s m e
               else S754_infinity s
   | Zneg _ => S754_nan
   end) = round_result s r E.
Proof.
  intros Hr HE. unfold round_result.
  destruct (Z.eqb_spec r 0) as [->|Hnz].
  { pose proof (shr_zero E (fexp F32.prec F32.emax (Zdigits2 0 + E) - E)) as Z0.
    unfold shr_fexp.
    destruct (shr _ _ _) as [mrs e]. cbn [fst] in Z0. now rewrite Z0. }
  destruct (Z.eqb_spec r (2 ^ 24)) as [->|Hne].
  { unfold shr_fexp. change (Zdigits2 (2 ^ 24)) with 25.
    replace (fexp F32.prec F32.emax (25 + E) - E) with 1
      by (unfold fexp, emin, F32.prec, F32.emax; lia).
    reflexivity. }
  unfold shr_fexp.
  assert (D : Zdigits2 r <= 24) by (apply Zdigits2_le_24; lia).
  assert (N : fexp F32.prec F32.emax (Zdigits2 r + E) - E <= 0)
    by (unfold fexp, emin, F32.prec, F32.emax; lia).
  assert (S : shr (shr_record_of_loc r loc_Exact) E
                (fexp F32.prec F32.emax (Zdigits2 r + E) - E)
              = (shr_record_of_loc r loc_Exact, E)).
  { unfold shr. destruct (fexp _ _ _ - E); try reflexivity; lia. }
  rewrite S. cbn [shr_record_of_loc shr_m].
  destruct r as [|p|p]; try lia. reflexivity.
Qed.

(** [binary_round_aux] on a bracket of [x] whose exponent is not above the
    canonical one: round to nearest even at the canonical exponent. *)
Lemma binary_round_aux_canon s m e l x k :
  binade k x -> 0 <= m -> bracket m e l x ->
  e <= fexp F32.prec F32.emax k ->
  exists m' l',
    bracket m' (fexp F32.prec F32.emax k) l' x /\ 0 <= m' /\
    binary_round_aux F32.prec F32.emax s m e l
    = round_result s (round_nearest_even m' l') (fexp F32.prec F32.emax k).
Proof.
  intros Hk Hm Hb He.
  destruct (shr_fexp_canon m e l x k Hk Hm Hb He) as (B & N & E').
  unfold binary_round_aux.
  destruct (shr_fexp F32.prec F32.emax m e l) as [mrs' e'].
  cbn [fst snd] in *. subst e'.
  exists (shr_m mrs'), (loc_of_shr_record mrs'). repeat split; auto.
  destruct (canon_mantissa_bounds _ _ _ _ Hk N B) as [Hi _].
  pose proof (round_nearest_even_bounds (shr_m mrs') (loc_of_shr_record mrs')).
  apply round_result_spec; [lia | apply fexp_ge].
Qed.

(** ** The order of valid floats is that of their real values *)

Lemma pow2_ge_1 n : 0 <= n -> 1 <= 2 ^ n.
Proof. intros H. pose proof (Z.pow_pos_nonneg 2 n). lia. Qed.

Lemma F2R_opp m e : F2R (- m) e = (- F2R m e)%R.
Proof. unfold F2R. rewrite opp_IZR. lra. Qed.

Lemma F2R_pos m e : 0 < m -> (0 < F2R m e)%R.
Proof.
  intros H. unfold F2R. apply Rmult_lt_0_compat.
  - now apply IZR_lt.
  - apply bpow_gt_0.
Qed.

Lemma F2R_lt m1 m2 e : m1 < m2 -> (F2R m1 e < F2R m2 e)%R.
Proof.
  intros H. unfold F2R. apply Rmult_lt_compat_r.
  - apply bpow_gt_0.
  - now apply IZR_lt.
Qed.

Lemma bpow_128 : bpow 128 = F2R (2 ^ 24) 104.
Proof. unfold F2R. rewrite <- bpow_IZR, <- bpow_add by lia. reflexivity. Qed.

Lemma F2R_shift m e n : 0 <= n -> F2R (m * 2 ^ n) e = F2R m (e + n).
Proof.
  intros H. unfold F2R. rewrite mult_IZR, <- bpow_IZR, bpow_add by lia.
  rewrite (Rmult_comm (bpow e)). lra.
Qed.

Lemma bounded_exp m e :
  SpecFloat.bounded F32.prec F32.emax m e = true -> e <= 104.
Proof.
  unfold SpecFloat.bounded. intros H. apply andb_prop in H.
  destruct H as [_ H]. apply Z.leb_le in H. exact H.
Qed.

Lemma finite_exp_lt m1 e1 m2 e2 :
  SpecFloat.bounded F32.prec F32.emax m1 e1 = true ->
  SpecFloat.bounded F32.prec F32.emax m2 e2 = true ->
  e1 < e2 -> (F2R (Zpos m1) e1 < F2R (Zpos m2) e2)%R.
Proof.
  intros B1 B2 He.
  destruct (bounded_digits _ _ B1) as (H1 & L1 & _).
  destruct (bounded_digits _ _ B2) as (_ & _ & H2).
  apply Rlt_le_trans with (F2R (2 ^ 24) e1).
  - apply F2R_lt; lia.
  - apply Rle_trans with (F2R (2 ^ 23) e2).
    + replace e2 with (e1 + 1 + (e2 - e1 - 1)) by lia.
      rewrite <- F2R_shift by lia.
      change (2 ^ 24) with (2 ^ 23 * 2 ^ 1). rewrite F2R_shift by lia.
      apply F2R_le.
      pose proof (pow2_ge_1 (e2 - e1 - 1)).
      nia.
    + apply F2R_le. apply H2. lia.
Qed.

Lemma finite_lt_128 m e :
  SpecFloat.bounded F32.prec F32.emax m e = true ->
  (F2R (Zpos m) e < bpow 128)%R.
Proof.
  intros B. destruct (bounded_digits _ _ B) as (H1 & _ & _).
  pose proof (bounded_exp _ _ B) as He. rewrite bpow_128.
  apply Rlt_le_trans with (F2R (2 ^ 24) e).
  - apply F2R_lt; lia.
  - replace 104 with (e + (104 - e)) by lia. rewrite <- F2R_shift by lia.
    apply F2R_le.
    pose proof (pow2_ge_1 (104 - e)). nia.
Qed.

(** On valid finite floats the comparison is that of the real values. *)
Lemma SFcompare_B2R x y :
  F32.valid x = true -> F32.valid y = true ->
  is_finite x = true -> is_finite y = true ->
  match SFcompare x y with
  | Some Lt => (B2R x < B2R y)%R
  | Some Eq => B2R x = B2R y
  | Some Gt => (B2R y < B2R x)%R
  | None => False
  end.
Proof.
  destruct x as [sx|sx| |sx mx ex], y as [sy|sy| |sy my ey]; try discriminate;
    cbn [F32.valid valid_binary is_finite SFcompare B2R]; intros Vx Vy _ _.
  - reflexivity.
  - pose proof (F2R_pos (Zpos my) ey eq_refl).
    destruct sy; cbn [cond_Zopp]; rewrite ?F2R_opp; lra.
  - pose proof (F2R_pos (Zpos mx) ex eq_refl).
    destruct sx; cbn [cond_Zopp]; rewrite ?F2R_opp; lra.
  - pose proof (F2R_pos (Zpos mx) ex eq_refl).
    pose proof (F2R_pos (Zpos my) ey eq_refl).
    assert (C : match ex ?= ey with
                | Lt => (F2R (Zpos mx) ex < F2R (Zpos my) ey)%R
                | Gt => (F2R (Zpos my) ey < F2R (Zpos mx) ex)%R
                | Eq => match (mx ?= my)%positive with
                        | Lt => (F2R (Zpos mx) ex < F2R (Zpos my) ey)%R
                        | Gt => (F2R (Zpos my) ey < F2R (Zpos mx) ex)%R
                        | Eq => F2R (Zpos mx) ex = F2R (Zpos my) ey
                        end
                end).
    { destruct (Z.compare_spec ex ey) as [->|L|G].
      - destruct (Pos.compare_spec mx my) as [->|L|G]; auto;
          apply F2R_lt; lia.
      - now apply finite_exp_lt.
      - now apply finite_exp_lt. }
    change (Pos.compare_cont Eq mx my) with (mx ?= my)%positive.
    destruct sx, sy; cbn [cond_Zopp]; rewrite ?F2R_opp; try lra;
      destruct (ex ?= ey); try lra;
      destruct (mx ?= my)%positive; cbn [CompOpp]; lra.
Qed.

Lemma leb_of_Rle x y :
  F32.valid x = true -> F32.valid y = true ->
  is_finite x = true -> is_finite y = true ->
  (B2R x <= B2R y)%R -> F32.leb x y = true.
Proof.
  intros Vx Vy Fx Fy H. pose proof (SFcompare_B2R x y Vx Vy Fx Fy) as C.
  unfold F32.leb, SFleb. destruct (SFcompare x y) as [[]|]; auto; lra.
Qed.

Lemma Rle_of_leb x y :
  F32.valid x = true -> F32.valid y = true ->
  is_finite x = true -> is_finite y = true ->
  F32.leb x y = true -> (B2R x <= B2R y)%R.
Proof.
  intros Vx Vy Fx Fy H. pose proof (SFcompare_B2R x y Vx Vy Fx Fy) as C.
  unfold F32.leb, SFleb in H.
  destruct (SFcompare x y) as [[]|]; try discriminate; lra.
Qed.

Lemma round_result_signed s r E : signed_as s (round_result s r E).
Proof.
  unfold round_result.
  destruct (r =? 0), (r =? 2 ^ 24), (E + 1 <=? 104), (E <=? 104); reflexivity.
Qed.

Lemma canonical_24 m e :
  -149 <= e -> 2 ^ 23 <= Zpos m < 2 ^ 24 ->
  canonical_mantissa F32.prec F32.emax m e = true.
Proof.
  intros He Hm. unfold canonical_mantissa. apply Z.eqb_eq.
  pose proof (Zdigits2_le_24 (Zpos m)) as D1.
  pose proof (Zdigits2_ge_24 (Zpos m)) as D2. cbn [Zdigits2] in *.
  unfold fexp, emin, F32.prec, F32.emax. lia.
Qed.

Lemma canonical_subnormal m :
  Zpos m < 2 ^ 24 ->
  canonical_mantissa F32.prec F32.emax m (-149) = true.
Proof.
  intros Hm. unfold canonical_mantissa. apply Z.eqb_eq.
  pose proof (Zdigits2_le_24 (Zpos m)) as D1. cbn [Zdigits2] in *.
  unfold fexp, emin, F32.prec, F32.emax. lia.
Qed.

Lemma round_result_valid s r E :
  0 <= r <= 2 ^ 24 -> -149 <= E -> (-149 < E -> 2 ^ 23 <= r) ->
  F32.valid (round_result s r E) = true.
Proof.
  intros Hr HE Hn. unfold round_result.
  destruct (Z.eqb_spec r 0) as [->|Hnz]; [reflexivity|].
  destruct (Z.eqb_spec r (2 ^ 24)) as [->|Hne].
  - destruct (Z.leb_spec (E + 1) 104) as [L|G]; [|reflexivity].
    cbn [F32.valid valid_binary]. unfold SpecFloat.bounded.
    rewrite canonical_24 by (cbn; lia).
    apply Z.leb_le. unfold F32.emax, F32.prec. lia.
  - destruct (Z.leb_spec E 104) as [L|G]; [|reflexivity].
    cbn [F32.valid valid_binary]. unfold SpecFloat.bounded.
    destruct r as [|p|p]; try lia. cbn [Z.to_pos].
    apply andb_true_intro; split.
    + destruct (Z.eq_dec E (-149)) as [->|Hd].
      * apply canonical_subnormal; lia.
      * apply canonical_24; lia.
    + apply Z.leb_le. unfold F32.emax, F32.prec. lia.
Qed.

Lemma round_result_value s r E :
  0 <= r <= 2 ^ 24 -> -149 <= E -> (-149 < E -> 2 ^ 23 <= r) ->
  (is_finite (round_result s r E) = true /\
   B2R (round_result s r E) = F2R (cond_Zopp s r) E) \/
  (round_result s r E = S754_infinity s /\ (bpow 128 <= F2R r E)%R).
Proof.
  intros Hr HE Hn. unfold round_result.
  destruct (Z.eqb_spec r 0) as [->|Hnz].
  { left. split; [reflexivity|]. cbn [B2R].
    destruct s; cbn [cond_Zopp Z.opp]; now rewrite F2R_0. }
  destruct (Z.eqb_spec r (2 ^ 24)) as [->|Hne].
  - destruct (Z.leb_spec (E + 1) 104) as [L|G].
    + left. split; [reflexivity|]. cbn [B2R].
      change (Zpos (Z.to_pos (2 ^ 23))) with (2 ^ 23).
      change (2 ^ 24) with (2 ^ 23 * 2 ^ 1).
      destruct s; cbn [cond_Zopp].
      * rewrite !F2R_opp, F2R_shift by lia. reflexivity.
      * rewrite F2R_shift by lia. reflexivity.
    + right. split; [reflexivity|]. rewrite bpow_128.
      replace E with (104 + (E - 104)) by lia. rewrite <- F2R_shift by lia.
      apply F2R_le.
      pose proof (pow2_ge_1 (E - 104)). nia.
  - destruct (Z.leb_spec E 104) as [L|G].
    + left. split; [reflexivity|]. cbn [B2R].
      rewrite Z2Pos.id by lia. reflexivity.
    + right. split; [reflexivity|]. rewrite bpow_128.
      replace E with (104 + (E - 104)) by lia. rewrite <- F2R_shift by lia.
      apply F2R_le.
      assert (2 ^ 1 <= 2 ^ (E - 104)) by (apply Z.pow_le_mono_r; lia).
      assert (2 ^ 23 <= r) by (apply Hn; lia).
      change (2 ^ 24) with (2 ^ 23 * 2 ^ 1). nia.
Qed.

(** ** Rounding to nearest even is monotone *)

Lemma round_nearest_even_mono m l1 l2 e x1 x2 :
  bracket m e l1 x1 -> bracket m e l2 x2 -> (x1 <= x2)%R ->
  round_nearest_even m l1 <= round_nearest_even m l2.
Proof.
  assert (Hb := bpow_gt_0 e).
  destruct l1 as [|[]], l2 as [|[]]; cbn [bracket round_nearest_even];
    rewrite ?F2R_succ; intros H1 H2 H; try lia; try lra;
    destruct (Z.even m); lia.
Qed.

Lemma round_nearest_even_same_grid m1 l1 m2 l2 e x1 x2 :
  bracket m1 e l1 x1 -> bracket m2 e l2 x2 -> (x1 <= x2)%R ->
  round_nearest_even m1 l1 <= round_nearest_even m2 l2.
Proof.
  intros B1 B2 H.
  pose proof (bracket_bounds _ _ _ _ B1) as [L1 U1].
  pose proof (bracket_bounds _ _ _ _ B2) as [L2 U2].
  assert (M : (F2R m1 e < F2R (m2 + 1) e)%R) by lra.
  apply F2R_lt_inv in M.
  destruct (Z.eq_dec m1 m2) as [->|Hne].
  - eapply round_nearest_even_mono; eauto.
  - pose proof (round_nearest_even_bounds m1 l1).
    pose proof (round_nearest_even_bounds m2 l2). lia.
Qed.

Lemma round_nearest_even_below m l e x n :
  bracket m e l x -> (x <= F2R n e)%R -> round_nearest_even m l <= n.
Proof.
  intros B H. pose proof (bracket_bounds _ _ _ _ B) as [L U].
  assert (M : (F2R m e < F2R (n + 1) e)%R).
  { rewrite (F2R_succ n). pose proof (bpow_gt_0 e). lra. }
  apply F2R_lt_inv in M.
  destruct (Z.eq_dec m n) as [->|Hne].
  - assert (Hb := bpow_gt_0 e).
    destruct l as [|[]]; cbn [bracket round_nearest_even] in *; try lia; lra.
  - pose proof (round_nearest_even_bounds m l). lia.
Qed.

Lemma round_nearest_even_above m l e x n :
  bracket m e l x -> (F2R n e <= x)%R -> n <= round_nearest_even m l.
Proof.
  intros B H. pose proof (bracket_bounds _ _ _ _ B) as [L U].
  assert (M : (F2R n e < F2R (m + 1) e)%R) by lra.
  apply F2R_lt_inv in M.
  pose proof (round_nearest_even_bounds m l). lia.
Qed.

Lemma bpow_F2R k e : e <= k -> bpow k = F2R (2 ^ (k - e)) e.
Proof.
  intros H. unfold F2R. rewrite <- bpow_IZR, <- bpow_add by lia.
  f_equal. lia.
Qed.

(** Rounding to nearest even at the canonical exponent is monotone. *)
Lemma round_canonical_mono k1 m1 l1 x1 k2 m2 l2 x2 :
  binade k1 x1 -> bracket m1 (fexp F32.prec F32.emax k1) l1 x1 ->
  binade k2 x2 -> bracket m2 (fexp F32.prec F32.emax k2) l2 x2 ->
  (x1 <= x2)%R ->
  (F2R (round_nearest_even m1 l1) (fexp F32.prec F32.emax k1)
   <= F2R (round_nearest_even m2 l2) (fexp F32.prec F32.emax k2))%R.
Proof.
  intros K1 B1 K2 B2 H.
  pose proof (binade_mono _ _ _ _ K1 K2 H) as Hk.
  pose proof (fexp_mono _ _ Hk) as HE.
  set (E1 := fexp F32.prec F32.emax k1) in *.
  set (E2 := fexp F32.prec F32.emax k2) in *.
  destruct (Z.eq_dec E1 E2) as [Heq|Hne].
  - rewrite <- Heq in *. apply F2R_le.
    eapply round_nearest_even_same_grid; eauto.
  - assert (Hlt : E1 < E2) by lia.
    assert (D1 : E1 = Z.max (k1 - 24) (-149)) by reflexivity.
    assert (D2 : E2 = Z.max (k2 - 24) (-149)) by reflexivity.
    destruct K1 as [_ U1]. destruct K2 as [L2 _].
    assert (P : (bpow k1 <= bpow (k2 - 1))%R) by (apply bpow_le; lia).
    apply Rle_trans with (bpow (k2 - 1)).
    + rewrite (bpow_F2R (k2 - 1) E1) by lia. apply F2R_le.
      eapply round_nearest_even_below; eauto.
      rewrite <- bpow_F2R by lia. lra.
    + rewrite (bpow_F2R (k2 - 1) E2) by lia. apply F2R_le.
      eapply round_nearest_even_above; eauto.
      rewrite <- bpow_F2R by lia. lra.
Qed.

Lemma rounded_mantissa_bounds k m l x :
  binade k x -> 0 <= m -> bracket m (fexp F32.prec F32.emax k) l x ->
  0 <= round_nearest_even m l <= 2 ^ 24 /\
  (-149 < fexp F32.prec F32.emax k -> 2 ^ 23 <= round_nearest_even m l).
Proof.
  intros K Hm B.
  destruct (canon_mantissa_bounds _ _ _ _ K Hm B) as [Hi Lo].
  pose proof (round_nearest_even_bounds m l). split; [lia|].
  intros Hn. specialize (Lo Hn). lia.
Qed.

Lemma rounds_abs_valid s x f : rounds_abs s x f -> F32.valid f = true.
Proof.
  intros (k & m & l & K & Hm & B & ->).
  destruct (rounded_mantissa_bounds _ _ _ _ K Hm B) as [Hr Hn].
  apply round_result_valid; auto. apply fexp_ge.
Qed.

Lemma rounds_abs_signed s x f : rounds_abs s x f -> signed_as s f.
Proof. intros (k & m & l & _ & _ & _ & ->). apply round_result_signed. Qed.

Lemma leb_pinf x : F32.isnan x = false -> F32.leb x (S754_infinity false) = true.
Proof. destruct x as [s|s| |s m e]; try discriminate; destruct s; reflexivity. Qed.

Lemma leb_ninf x : F32.isnan x = false -> F32.leb (S754_infinity true) x = true.
Proof. destruct x as [s|s| |s m e]; try discriminate; destruct s; reflexivity. Qed.

Lemma leb_neg_pos x y :
  signed_as true x -> signed_as false y \/ F32.is_zero y = true ->
  F32.leb x y = true.
Proof.
  destruct x as [s|s| |s m e], y as [s'|s'| |s' m' e']; cbn [signed_as F32.is_zero];
    intros Hx [Hy|Hy]; subst; try discriminate; try tauto; try reflexivity;
    destruct s'; reflexivity.
Qed.

Lemma leb_zero_pos x y :
  F32.is_zero x = true -> signed_as false y \/ F32.is_zero y = true ->
  F32.leb x y = true.
Proof.
  destruct x as [s|s| |s m e], y as [s'|s'| |s' m' e']; cbn [signed_as F32.is_zero];
    intros Hx [Hy|Hy]; subst; try discriminate; try tauto; reflexivity.
Qed.

(** Rounding of positive numbers with a given sign is monotone. *)
Lemma rounds_abs_mono s x1 f1 x2 f2 :
  rounds_abs s x1 f1 -> rounds_abs s x2 f2 -> (x1 <= x2)%R ->
  if s then F32.leb f2 f1 = true else F32.leb f1 f2 = true.
Proof.
  intros R1 R2 H.
  pose proof (rounds_abs_valid _ _ _ R1) as V1.
  pose proof (rounds_abs_valid _ _ _ R2) as V2.
  pose proof (signed_as_not_nan _ _ (rounds_abs_signed _ _ _ R1)) as N1.
  pose proof (signed_as_not_nan _ _ (rounds_abs_signed _ _ _ R2)) as N2.
  destruct R1 as (k1 & m1 & l1 & K1 & P1 & B1 & E1).
  destruct R2 as (k2 & m2 & l2 & K2 & P2 & B2 & E2).
  pose proof (round_canonical_mono _ _ _ _ _ _ _ _ K1 B1 K2 B2 H) as Y.
  destruct (rounded_mantissa_bounds _ _ _ _ K1 P1 B1) as [Hr1 Hn1].
  destruct (rounded_mantissa_bounds _ _ _ _ K2 P2 B2) as [Hr2 Hn2].
  set (r1 := round_nearest_even m1 l1) in *.
  set (r2 := round_nearest_even m2 l2) in *.
  set (e1 := fexp F32.prec F32.emax k1) in *.
  set (e2 := fexp F32.prec F32.emax k2) in *.
  destruct (round_result_value s r2 e2 Hr2 (fexp_ge k2) Hn2) as [[F2 W2]|[I2 _]].
  - assert (Y2 : (F2R r2 e2 < bpow 128)%R).
    { rewrite <- E2 in *. destruct f2 as [s2|s2| |s2 mm ee]; try discriminate.
      - cbn [B2R] in W2.
        destruct s; cbn [cond_Zopp] in W2; rewrite ?F2R_opp in W2;
          pose proof (bpow_gt_0 128); lra.
      - cbn [B2R] in W2. pose proof (finite_lt_128 mm ee V2) as Hlt.
        assert (Ss : s2 = s).
        { pose proof (round_result_signed s r2 e2) as Sg.
          rewrite <- E2 in Sg. exact Sg. }
        subst s2.
        destruct s; cbn [cond_Zopp] in W2;
          change (Z.opp (Zpos mm)) with (- Zpos mm) in W2;
          rewrite ?F2R_opp in W2; lra. }
    destruct (round_result_value s r1 e1 Hr1 (fexp_ge k1) Hn1) as [[F1 W1]|[_ Y1]];
      [|lra].
    rewrite <- E1 in F1, W1. rewrite <- E2 in F2, W2.
    destruct s; cbn [cond_Zopp] in *; rewrite ?F2R_opp in *;
      apply leb_of_Rle; auto; lra.
  - subst f2. rewrite I2.
    destruct s; [apply leb_ninf | apply leb_pinf]; auto.
Qed.

Lemma rounds_to_valid v f : rounds_to v f -> F32.valid f = true.
Proof.
  intros [[_ Z]|[[_ R]|[_ R]]]; try solve [eapply rounds_abs_valid; eauto].
  destruct f; try discriminate; reflexivity.
Qed.

(** Rounding is monotone. *)
Lemma rounds_to_mono v1 f1 v2 f2 :
  rounds_to v1 f1 -> rounds_to v2 f2 -> (v1 <= v2)%R -> F32.leb f1 f2 = true.
Proof.
  intros [[Z1 Hz1]|[[P1 R1]|[N1 R1]]] [[Z2 Hz2]|[[P2 R2]|[N2 R2]]] H;
    try lra.
  - apply leb_zero_pos; auto.
  - apply leb_zero_pos; auto. left. eapply rounds_abs_signed; eauto.
  - exact (rounds_abs_mono false _ _ _ _ R1 R2 H).
  - apply leb_neg_pos; auto. eapply rounds_abs_signed; eauto.
  - apply leb_neg_pos; [eapply rounds_abs_signed; eauto|].
    left. eapply rounds_abs_signed; eauto.
  - assert (H' : (- v2 <= - v1)%R) by lra.
    exact (rounds_abs_mono true _ _ _ _ R2 R1 H').
Qed.

(** ** Subtraction and multiplication round the exact result *)

Lemma binary_round_aux_rounds s m e l x k :
  binade k x -> 0 <= m -> bracket m e l x ->
  e <= fexp F32.prec F32.emax k ->
  rounds_abs s x (binary_round_aux F32.prec F32.emax s m e l).
Proof.
  intros K Hm B He.
  destruct (binary_round_aux_canon s m e l x k K Hm B He)
    as (m' & l' & B' & Hm' & E).
  exists k, m', l'. auto.
Qed.

Lemma iter_xO_pow m d : Zpos (Pos.iter xO m d) = Zpos m * 2 ^ Zpos d.
Proof.
  induction d as [|d IH] using Pos.peano_ind.
  - simpl. lia.
  - rewrite Pos.iter_succ, Pos2Z.inj_succ, Z.pow_succ_r by lia.
    rewrite Pos2Z.inj_xO, IH. lia.
Qed.

Lemma shl_align_spec m e e' :
  snd (shl_align m e e') = Z.min e e' /\
  F2R (Zpos (fst (shl_align m e e'))) (snd (shl_align m e e'))
  = F2R (Zpos m) e.
Proof.
  unfold shl_align. destruct (e' - e) as [|d|d] eqn:D; cbn [fst snd].
  - split; [lia | reflexivity].
  - split; [lia | reflexivity].
  - split; [lia|]. rewrite iter_xO_pow, F2R_shift by lia. f_equal. lia.
Qed.

Lemma binary_round_rounds s p e :
  rounds_abs s (F2R (Zpos p) e) (binary_round F32.prec F32.emax s p e).
Proof.
  unfold binary_round.
  pose proof (shl_align_spec p e
                (fexp F32.prec F32.emax (Zpos (digits2_pos p) + e))) as [S V].
  destruct (shl_align _ _ _) as [mz ez]. cbn [fst snd] in *.
  apply binary_round_aux_rounds with (k := Zdigits2 (Zpos p) + e).
  - apply (bracket_binade (Zpos p) e loc_Exact); [lia | reflexivity].
  - lia.
  - cbn [bracket]. now rewrite V.
  - cbn [Zdigits2]. lia.
Qed.

Lemma binary_normalize_rounds n e :
  rounds_to (F2R n e) (binary_normalize F32.prec F32.emax n e false).
Proof.
  destruct n as [|p|p]; cbn [binary_normalize].
  - left. split; [apply F2R_0 | reflexivity].
  - right; left. split; [apply F2R_pos; lia | apply binary_round_rounds].
  - right; right. change (Zneg p) with (- Zpos p). rewrite F2R_opp.
    pose proof (F2R_pos (Zpos p) e eq_refl).
    split; [lra|]. rewrite Ropp_involutive. apply binary_round_rounds.
Qed.

(** A valid finite float is the rounding of its own value. *)
Lemma valid_rounds x :
  F32.valid x = true -> is_finite x = true -> rounds_to (B2R x) x.
Proof.
  destruct x as [s|s| |s m e]; try discriminate; intros V _.
  - left. split; reflexivity.
  - cbn [F32.valid valid_binary] in V.
    destruct (bounded_digits _ _ V) as (Hi & Lo & _).
    pose proof (bounded_exp _ _ V) as He.
    assert (C : fexp F32.prec F32.emax (Zdigits2 (Zpos m) + e) = e).
    { unfold SpecFloat.bounded in V. apply andb_prop in V.
      destruct V as [V _]. apply Z.eqb_eq in V. exact V. }
    assert (Rr : rounds_abs s (F2R (Zpos m) e) (S754_finite s m e)).
    { exists (Zdigits2 (Zpos m) + e), (Zpos m), loc_Exact.
      rewrite C. repeat split.
      - apply (bracket_binade (Zpos m) e loc_Exact); [lia | reflexivity].
      - apply (bracket_binade (Zpos m) e loc_Exact); [lia | reflexivity].
      - lia.
      - cbn [round_nearest_even]. unfold round_result.
        destruct (Z.eqb_spec (Zpos m) 0); [lia|].
        destruct (Z.eqb_spec (Zpos m) (2 ^ 24)); [lia|].
        destruct (Z.leb_spec e 104); [reflexivity | lia]. }
    pose proof (F2R_pos (Zpos m) e eq_refl).
    cbn [B2R]. destruct s; cbn [cond_Zopp].
    + right; right. change (- Zpos m) with (- (Zpos m)). rewrite F2R_opp.
      split; [lra|]. now rewrite Ropp_involutive.
    + right; left. split; auto.
Qed.

Lemma F2R_minus m n e : F2R (m - n) e = (F2R m e - F2R n e)%R.
Proof. unfold F2R. rewrite minus_IZR. lra. Qed.

Lemma F2R_cond_Zopp s m e :
  F2R (cond_Zopp s m) e = (if s then - F2R m e else F2R m e)%R.
Proof. destruct s; cbn [cond_Zopp]; [apply F2R_opp | reflexivity]. Qed.

Lemma shl_align_min m e e' :
  e' <= e ->
  F2R (Zpos (fst (shl_align m e e'))) e' = F2R (Zpos m) e.
Proof.
  intros H. destruct (shl_align_spec m e e') as [S V].
  rewrite <- V, S. f_equal. lia.
Qed.

(** The difference of two finite floats is the rounding of the exact
    difference. *)
Lemma sub_rounds x y :
  F32.valid x = true -> F32.valid y = true ->
  is_finite x = true -> F32.is_zero x = false -> is_finite y = true ->
  rounds_to (B2R x - B2R y) (F32.sub x y).
Proof.
  destruct x as [sx|sx| |sx mx ex]; try discriminate.
  destruct y as [sy|sy| |sy my ey]; try discriminate; intros Vx Vy _ _ _.
  - cbn [F32.sub SFsub B2R]. rewrite Rminus_0_r.
    apply (valid_rounds (S754_finite sx mx ex)); auto.
  - unfold F32.sub, SFsub. cbv zeta.
    set (ez := Z.min ex ey).
    match goal with |- rounds_to ?v (binary_normalize _ _ ?n _ _) =>
      replace v with (F2R n ez); [apply binary_normalize_rounds|] end.
    rewrite F2R_minus, !F2R_cond_Zopp, !shl_align_min by (unfold ez; lia).
    cbn [B2R]. rewrite !F2R_cond_Zopp. reflexivity.
Qed.

(** The product of two finite floats is the rounding of the exact product. *)
Lemma mul_abs_rounds sx mx ex sy my ey :
  SpecFloat.bounded F32.prec F32.emax mx ex = true ->
  SpecFloat.bounded F32.prec F32.emax my ey = true ->
  rounds_abs (xorb sx sy) (F2R (Zpos mx) ex * F2R (Zpos my) ey)
    (F32.mul (S754_finite sx mx ex) (S754_finite sy my ey)).
Proof.
  intros Bx By'. unfold F32.mul, SFmul.
  destruct (bounded_digits _ _ Bx) as (Hx & Lx & Nx).
  destruct (bounded_digits _ _ By') as (Hy & Ly & Ny).
  assert (V : (F2R (Zpos mx) ex * F2R (Zpos my) ey)%R
              = F2R (Zpos (mx * my)) (ex + ey)).
  { unfold F2R. rewrite Pos2Z.inj_mul, mult_IZR, bpow_add. lra. }
  rewrite V.
  apply binary_round_aux_rounds
    with (k := Zdigits2 (Zpos (mx * my)) + (ex + ey)).
  - apply (bracket_binade _ _ loc_Exact); [lia | reflexivity].
  - lia.
  - reflexivity.
  - destruct (Z_le_gt_dec (ex + ey) (-149)) as [Hs|Hb].
    + unfold fexp, emin, F32.prec, F32.emax. lia.
    + assert (P : 2 ^ 23 <= Zpos (mx * my)).
      { rewrite Pos2Z.inj_mul.
        destruct (Z_le_gt_dec ex (-149)); [specialize (Ny ltac:(lia))
                                          | specialize (Nx ltac:(lia))]; nia. }
      pose proof (Zdigits2_ge_24 _ P).
      unfold fexp, emin, F32.prec, F32.emax. lia.
Qed.

Lemma mul_rounds mx ex y :
  SpecFloat.bounded F32.prec F32.emax mx ex = true ->
  F32.valid y = true -> is_finite y = true ->
  rounds_to (F2R (Zpos mx) ex * B2R y) (F32.mul (S754_finite false mx ex) y).
Proof.
  intros Bx Vy Fy. destruct y as [sy|sy| |sy my ey]; try discriminate.
  - left. split; [cbn [B2R]; lra | reflexivity].
  - cbn [F32.valid valid_binary] in Vy.
    pose proof (mul_abs_rounds false mx ex sy my ey Bx Vy) as Rr.
    pose proof (F2R_pos (Zpos mx) ex eq_refl).
    pose proof (F2R_pos (Zpos my) ey eq_refl).
    assert ((0 < F2R (Zpos mx) ex * F2R (Zpos my) ey)%R)
      by (apply Rmult_lt_0_compat; auto).
    cbn [B2R xorb] in *. rewrite F2R_cond_Zopp. destruct sy.
    + right; right. split; [lra|].
      replace (- (F2R (Zpos mx) ex * - F2R (Zpos my) ey))%R
        with (F2R (Zpos mx) ex * F2R (Zpos my) ey)%R by lra.
      exact Rr.
    + right; left. split; auto.
Qed.

(** ** Division rounds the exact quotient *)

Lemma new_location_spec d r :
  0 < d -> 0 <= r < d ->
  new_location d r
  = if r =? 0 then loc_Exact else loc_Inexact (2 * r ?= d).
Proof.
  intros Hd Hr. unfold new_location, new_location_even, new_location_odd.
  destruct (Z.even d) eqn:Ev; cbv beta;
    destruct (Z.eqb_spec r 0) as [Hz|Hz]; try reflexivity.
  f_equal.
  assert (Od : Z.odd d = true) by (now rewrite <- Z.negb_even, Ev).
  apply Z.odd_spec in Od. destruct Od as [h Hh].
  destruct (Z.compare_spec (2 * r + 1) d), (Z.compare_spec (2 * r) d);
    try reflexivity; lia.
Qed.

(** The quotient of the division, as a bracket of the exact quotient. *)
Lemma div_bracket q r d e (t : R) :
  0 < d -> 0 <= r < d ->
  (t * IZR d = IZR q * IZR d + IZR r)%R ->
  bracket q e (new_location d r) (t * bpow e).
Proof.
  intros Hd Hr Ht. rewrite new_location_spec by auto.
  assert (Be := bpow_gt_0 e).
  assert (D : (0 < IZR d)%R) by (apply IZR_lt; lia).
  set (u := (t - IZR q)%R).
  assert (U : (u * IZR d = IZR r)%R) by (unfold u; lra).
  assert (X : (t * bpow e = F2R q e + u * bpow e)%R)
    by (unfold F2R, u; lra).
  rewrite X. clear X Ht. clearbody u.
  destruct (Z.eqb_spec r 0) as [->|Hnz].
  - cbn [bracket].
    assert (Hu : u = 0%R) by (apply (Rmult_eq_reg_r (IZR d)); lra).
    rewrite Hu. lra.
  - assert (R0 : (0 < IZR r)%R) by (apply IZR_lt; lia).
    assert (U0 : (0 < u)%R) by nra.
    assert (R1 : (IZR r < IZR d)%R) by (apply IZR_lt; lia).
    assert (U1 : (u < 1)%R) by nra.
    destruct (Z.compare_spec (2 * r) d) as [E|L|G]; cbn [bracket];
      rewrite ?F2R_succ.
    + assert (E' : (2 * IZR r = IZR d)%R) by (rewrite <- E, mult_IZR; lra).
      assert (Hu : u = (1 / 2)%R) by (apply (Rmult_eq_reg_r (IZR d)); lra).
      rewrite Hu. lra.
    + assert (L' : (2 * IZR r < IZR d)%R).
      { apply IZR_lt in L. rewrite mult_IZR in L. lra. }
      assert (u < 1 / 2)%R by nra. split; nra.
    + assert (G' : (IZR d < 2 * IZR r)%R).
      { apply IZR_lt in G. rewrite mult_IZR in G. lra. }
      assert (1 / 2 < u)%R by nra. split; nra.
Qed.

Lemma F2R_binade m e :
  0 < m -> binade (Zdigits2 m + e) (F2R m e).
Proof.
  intros H. apply (bracket_binade m e loc_Exact); [lia | reflexivity].
Qed.

Lemma binade_exists x k :
  (bpow (k - 1) < x < bpow (k + 1))%R ->
  exists k', binade k' x /\ k <= k'.
Proof.
  intros [L U]. destruct (Rlt_le_dec x (bpow k)) as [H|H].
  - exists k. split; [split; lra | lia].
  - exists (k + 1). split; [|lia]. split; [|lra].
    replace (k + 1 - 1) with k by lia. exact H.
Qed.

(** The quotient of two positive finite floats is the rounding of the
    exact quotient. *)
Lemma div_rounds mx ex my ey :
  rounds_abs false (F2R (Zpos mx) ex / F2R (Zpos my) ey)
    (F32.div (S754_finite false mx ex) (S754_finite false my ey)).
Proof.
  unfold F32.div, SFdiv, SFdiv_core_binary. cbv zeta.
  set (d1 := Zdigits2 (Zpos mx)). set (d2 := Zdigits2 (Zpos my)).
  set (k0 := d1 + ex - (d2 + ey)).
  set (e' := Z.min (fexp F32.prec F32.emax k0) (ex - ey)).
  set (s := ex - ey - e').
  assert (Hs : 0 <= s) by (unfold s, e'; lia).
  set (m' := match s with Z0 => Zpos mx | Zpos _ => Z.shiftl (Zpos mx) s
                     | Zneg _ => 0 end).
  assert (Hm' : m' = Zpos mx * 2 ^ s).
  { unfold m'. destruct s as [|p|p]; try lia.
    - rewrite Z.shiftl_mul_pow2; lia. }
  clearbody m'.
  pose proof (Z_div_mod m' (Zpos my) eq_refl) as DM.
  destruct (Z.div_eucl m' (Zpos my)) as [q r]. destruct DM as [DM Hr].
  cbn [xorb].
  set (X := F2R (Zpos mx) ex). set (Y := F2R (Zpos my) ey).
  assert (HX : (0 < X)%R) by (apply F2R_pos; lia).
  assert (HY : (0 < Y)%R) by (apply F2R_pos; lia).
  assert (Q0 : 0 <= q) by nia.
  (* the exact quotient, on the grid of [e'] *)
  set (t := (IZR m' / IZR (Zpos my))%R).
  assert (My : (0 < IZR (Zpos my))%R) by (apply IZR_lt; lia).
  assert (T : (X / Y = t * bpow e')%R).
  { unfold X, Y, t, F2R. rewrite Hm', mult_IZR, <- bpow_IZR by lia.
    replace ex with (ey + (s + e')) by (unfold s; lia).
    rewrite !bpow_add. pose proof (bpow_gt_0 ey). pose proof (bpow_gt_0 e').
    pose proof (bpow_gt_0 s). field. split; lra. }
  assert (B : bracket q e' (new_location (Zpos my) r) (X / Y)).
  { rewrite T. apply div_bracket; try lia.
    unfold t. rewrite DM at 1. rewrite plus_IZR, mult_IZR. field. lra. }
  (* its binade *)
  destruct (F2R_binade (Zpos mx) ex eq_refl) as [Lx Ux].
  destruct (F2R_binade (Zpos my) ey eq_refl) as [Ly Uy].
  fold d1 in Lx, Ux. fold d2 in Ly, Uy. fold X in Lx, Ux. fold Y in Ly, Uy.
  assert (Hq : (X = X / Y * Y)%R) by (field; lra).
  assert (Bq : (bpow (k0 - 1) < X / Y < bpow (k0 + 1))%R).
  { set (z := (X / Y)%R) in *.
    assert (Z0 : (0 < z)%R) by (apply Rdiv_lt_0_compat; auto).
    pose proof (bpow_gt_0 (k0 - 1)). pose proof (bpow_gt_0 (k0 + 1)).
    pose proof (bpow_gt_0 (d2 + ey)). pose proof (bpow_gt_0 (d2 + ey - 1)).
    assert (E1 : (bpow (k0 - 1) * bpow (d2 + ey) = bpow (d1 + ex - 1))%R).
    { rewrite <- bpow_add. f_equal. unfold k0. lia. }
    assert (E2 : (bpow (k0 + 1) * bpow (d2 + ey - 1) = bpow (d1 + ex))%R).
    { rewrite <- bpow_add. f_equal. unfold k0. lia. }
    split.
    - destruct (Rlt_le_dec (bpow (k0 - 1)) z) as [|G]; auto.
      exfalso. assert (z * Y < bpow (k0 - 1) * bpow (d2 + ey))%R; [|lra].
      apply Rle_lt_trans with (bpow (k0 - 1) * Y)%R.
      + apply Rmult_le_compat_r; lra.
      + apply Rmult_lt_compat_l; lra.
    - destruct (Rlt_le_dec z (bpow (k0 + 1))) as [|G]; auto.
      exfalso. assert (bpow (k0 + 1) * bpow (d2 + ey - 1) <= z * Y)%R; [|lra].
      apply Rle_trans with (bpow (k0 + 1) * Y)%R.
      + apply Rmult_le_compat_l; lra.
      + apply Rmult_le_compat_r; lra. }
  destruct (binade_exists _ _ Bq) as (k & K & Hk).
  apply binary_round_aux_rounds with (k := k); auto.
  pose proof (fexp_mono _ _ Hk). unfold e'. lia.
Qed.

(** ** The operations of [calcAltitude] are monotone *)

Lemma leb_not_nan x y :
  F32.leb x y = true -> F32.isnan x = false /\ F32.isnan y = false.
Proof. destruct x, y; try discriminate; split; reflexivity. Qed.

Lemma not_finite_cases x :
  F32.isnan x = false -> is_finite x = false -> exists s, x = S754_infinity s.
Proof. destruct x; try discriminate; eauto. Qed.

Lemma leb_inf_cases x y :
  F32.leb x y = true ->
  (is_finite x = true /\ is_finite y = true) \/
  x = S754_infinity true \/ y = S754_infinity false.
Proof.
  destruct x as [s|s| |s m e], y as [s'|s'| |s' m' e']; try discriminate;
    auto; try (destruct s; auto; discriminate);
    try (destruct s'; auto; discriminate).
  destruct s, s'; auto; discriminate.
Qed.

(** Division by a positive finite float is monotone on positive finite
    floats, and gives a valid, non-negative quotient. *)
Lemma div_valid m e ms es :
  F32.valid (F32.div (S754_finite false m e) (S754_finite false ms es)) = true /\
  F32.leb f0 (F32.div (S754_finite false m e) (S754_finite false ms es)) = true.
Proof.
  pose proof (div_rounds m e ms es) as Rr. split.
  - eapply rounds_abs_valid; eauto.
  - apply leb_zero_pos; [reflexivity|]. left.
    eapply rounds_abs_signed; eauto.
Qed.

Lemma div_mono m1 e1 m2 e2 ms es :
  F32.valid (S754_finite false m1 e1) = true ->
  F32.valid (S754_finite false m2 e2) = true ->
  F32.leb (S754_finite false m1 e1) (S754_finite false m2 e2) = true ->
  F32.leb (F32.div (S754_finite false m1 e1) (S754_finite false ms es))
          (F32.div (S754_finite false m2 e2) (S754_finite false ms es)) = true.
Proof.
  intros V1 V2 H.
  pose proof (Rle_of_leb _ _ V1 V2 eq_refl eq_refl H) as Hr.
  cbn [B2R cond_Zopp] in Hr.
  pose proof (F2R_pos (Zpos ms) es eq_refl) as Hs.
  apply (rounds_abs_mono false _ _ _ _ (div_rounds m1 e1 ms es)
           (div_rounds m2 e2 ms es)).
  unfold Rdiv. apply Rmult_le_compat_r; auto.
  left. now apply Rinv_0_lt_compat.
Qed.

(** Subtraction from a finite float is antitone in the subtrahend. *)
Lemma sub_valid s m e y :
  SpecFloat.bounded F32.prec F32.emax m e = true ->
  F32.valid y = true -> F32.isnan y = false ->
  F32.valid (F32.sub (S754_finite s m e) y) = true.
Proof.
  intros B V N. destruct (is_finite y) eqn:F.
  - eapply rounds_to_valid. apply sub_rounds; auto.
  - destruct (not_finite_cases y N F) as [sy ->]. reflexivity.
Qed.

Lemma sub_antitone s m e y1 y2 :
  SpecFloat.bounded F32.prec F32.emax m e = true ->
  F32.valid y1 = true -> F32.valid y2 = true ->
  F32.leb y1 y2 = true ->
  F32.leb (F32.sub (S754_finite s m e) y2) (F32.sub (S754_finite s m e) y1)
  = true.
Proof.
  intros B V1 V2 H. destruct (leb_not_nan _ _ H) as [N1 N2].
  pose proof (sub_finite_not_nan F32.prec F32.emax s m e y1 N1) as S1.
  pose proof (sub_finite_not_nan F32.prec F32.emax s m e y2 N2) as S2.
  destruct (leb_inf_cases _ _ H) as [[F1 F2]|[->| ->]].
  - apply (rounds_to_mono (B2R (S754_finite s m e) - B2R y2) _
                          (B2R (S754_finite s m e) - B2R y1)).
    + apply sub_rounds; auto.
    + apply sub_rounds; auto.
    + pose proof (Rle_of_leb _ _ V1 V2 F1 F2 H). lra.
  - change (F32.sub (S754_finite s m e) (S754_infinity true))
      with (S754_infinity false).
    apply leb_pinf. exact S2.
  - change (F32.sub (S754_finite s m e) (S754_infinity false))
      with (S754_infinity true).
    apply leb_ninf. exact S1.
Qed.

(** Multiplication by a positive finite float is monotone. *)
Lemma mul_not_nan m e y :
  F32.isnan y = false ->
  F32.isnan (F32.mul (S754_finite false m e) y) = false.
Proof.
  intros N. destruct y as [s|s| |s my ey]; try discriminate; try reflexivity.
  eapply signed_as_not_nan.
  apply (binary_round_aux_signed F32.prec F32.emax (xorb false s)). lia.
Qed.

Lemma mul_mono m e y1 y2 :
  SpecFloat.bounded F32.prec F32.emax m e = true ->
  F32.valid y1 = true -> F32.valid y2 = true ->
  F32.leb y1 y2 = true ->
  F32.leb (F32.mul (S754_finite false m e) y1)
          (F32.mul (S754_finite false m e) y2) = true.
Proof.
  intros B V1 V2 H. destruct (leb_not_nan _ _ H) as [N1 N2].
  pose proof (mul_not_nan m e y1 N1) as S1.
  pose proof (mul_not_nan m e y2 N2) as S2.
  destruct (leb_inf_cases _ _ H) as [[F1 F2]|[->| ->]].
  - apply (rounds_to_mono (F2R (Zpos m) e * B2R y1) _
                          (F2R (Zpos m) e * B2R y2)).
    + apply mul_rounds; auto.
    + apply mul_rounds; auto.
    + pose proof (Rle_of_leb _ _ V1 V2 F1 F2 H).
      pose proof (F2R_pos (Zpos m) e eq_refl).
      apply Rmult_le_compat_l; lra.
  - change (F32.mul (S754_finite false m e) (S754_infinity true))
      with (S754_infinity true).
    apply leb_ninf. exact S2.
  - change (F32.mul (S754_finite false m e) (S754_infinity false))
      with (S754_infinity false).
    apply leb_pinf. exact S1.
Qed.

Lemma f1_bounded :
  f1 = S754_finite false 8388608 (-23) /\
  SpecFloat.bounded F32.prec F32.emax 8388608 (-23) = true.
Proof. split; reflexivity. Qed.

Lemma f44330_bounded :
  f44330 = S754_finite false 11348480 (-8) /\
  SpecFloat.bounded F32.prec F32.emax 11348480 (-8) = true.
Proof. split; reflexivity. Qed.

(** C9, as amended: in binary32, [calcAltitude] is
    [44330 * (1 - pow (p / s) 0.1903)], a function of the pressure and the
    reference alone: the altitude of a sampling cycle is that of its
    normalised pressure at [gSeaLevelPressure], whatever the globals.  It is
    zero when the pressure is the reference, for every finite reference
    other than zero and any [pow] with [pow 1 y = 1].  For a [pow] that
    keeps floats valid and is non-decreasing in its first argument on the
    non-negative floats, and for a positive finite reference, a higher
    positive finite pressure never gives a higher altitude. *)
Theorem calcAltitude_nonincreasing_and_zero
  (powf : float -> float -> float) :
  (forall s p,
      calcAltitude powf s p
      = F32.mul f44330 (F32.sub f1 (powf (F32.div p s) f0_1903)))
  /\ (forall inp g,
        altitude_m (out_vals (snd (sampleCycle powf inp g)))
        = calcAltitude powf gSeaLevelPressure
            (normalizePressure (signal (dPress inp))))
  /\ (forall sg m e,
        powf f1 f0_1903 = f1 ->
        calcAltitude powf (S754_finite sg m e) (S754_finite sg m e) = f0)
  /\ ((forall a, F32.valid a = true -> F32.valid (powf a f0_1903) = true) ->
      (forall a b,
          F32.valid a = true -> F32.valid b = true ->
          F32.leb f0 a = true -> F32.leb a b = true ->
          F32.leb (powf a f0_1903) (powf b f0_1903) = true) ->
      forall ms es m1 e1 m2 e2,
        F32.valid (S754_finite false m1 e1) = true ->
        F32.valid (S754_finite false m2 e2) = true ->
        F32.leb (S754_finite false m1 e1) (S754_finite false m2 e2) = true ->
        F32.leb
          (calcAltitude powf (S754_finite false ms es) (S754_finite false m2 e2))
          (calcAltitude powf (S754_finite false ms es) (S754_finite false m1 e1))
        = true).
Proof.
  split; [reflexivity|]. split; [|split].
  - intros inp g. unfold sampleCycle.
    destruct (establishBaseline _ _ _) as [b1 locked].
    destruct (resetWindow _ _ _) as [b2 reset].
    destruct (computeSimpleVocIndex _ _) as [index b3].
    reflexivity.
  - intros sg m e H1. unfold calcAltitude. rewrite div_self, H1. reflexivity.
  - intros Hv Hm ms es m1 e1 m2 e2 V1 V2 H. unfold calcAltitude.
    destruct (div_valid m1 e1 ms es) as [Q1 P1].
    destruct (div_valid m2 e2 ms es) as [Q2 _].
    pose proof (div_mono m1 e1 m2 e2 ms es V1 V2 H) as Hq.
    pose proof (Hm _ _ Q1 Q2 P1 Hq) as Hy.
    destruct (leb_not_nan _ _ Hy) as [N1 N2].
    destruct f1_bounded as [-> B1]. destruct f44330_bounded as [-> B4].
    apply mul_mono; auto.
    + apply sub_valid; auto.
    + apply sub_valid; auto.
    + apply sub_antitone; auto.
Qed.

(** * The properties on concrete runs *)

(** Button C pressed on an established tracker (baseline 100 kOhm, window
    minimum 90 kOhm): [initBsec2] succeeds, and the tracker is still
    established with the same baseline and window minimum. *)
Lemma reinitialize_does_not_reset :
  let g := established_globals f100 (F32.of_Z 90) 150000 0 in
  let r := loop powf_one (press_C 200000) g in
  out_reinit (snd r) = Some true /\
  baselineEstablished (baseline (fst r)) <> false /\
  gasBaseline (baseline (fst r)) = f100 /\
  gasMinWindow (baseline (fst r)) = F32.of_Z 90.
Proof. cbv zeta. repeat split. discriminate. Qed.

Lemma reinitialize_keeps_baseline_witness :
  let g := established_globals f100 (F32.of_Z 90) 150000 0 in
  let ps := [press_C 200000; cycle_at 205000 80000 0 true] in
  baselineEstablished (baseline g) = true /\
  baselineEstablished (baseline (fst (runLoop powf_one ps g))) = true /\
  gasBaseline (baseline (fst (runLoop powf_one ps g))) = f100.
Proof.
  cbv zeta. split; [reflexivity|].
  exact (proj2 (reinitialize_keeps_baseline powf_one)
           [press_C 200000; cycle_at 205000 80000 0 true]
           (established_globals f100 (F32.of_Z 90) 150000 0) eq_refl).
Defined.

(** A first cycle at exactly [BASELINE_DELAY_MS] after boot does not lock
    the baseline; one millisecond later it does. *)
Lemma no_lock_at_the_delay_itself :
  let c := cycle_at 120000 50000 0 true in
  let r := sampleCycle powf_one c initial_globals in
  now c = 0 + BASELINE_DELAY_MS /\
  baselineEstablished (baseline (fst r)) = false /\
  out_baselineSet (snd r) = false /\
  baselineEstablished
    (baseline (fst (sampleCycle powf_one (cycle_at 120001 50000 0 true)
                      initial_globals))) = true.
Proof. cbv zeta. repeat split. Qed.

Lemma baseline_locked_once_after_delay_witness :
  let pre := [cycle_at 5000 52000 0 true; cycle_at 120000 51000 0 true] in
  let c := cycle_at 125000 50000 1 true in
  let post := [cycle_at 130000 40000 1 true] in
  baselineEstablished (baseline initial_globals) = false /\
  Forall (fun c' => now c' <= BASELINE_DELAY_MS) pre /\
  BASELINE_DELAY_MS < now c /\
  gasBaseline
    (baseline (fst (runCycles powf_one (pre ++ c :: post) initial_globals)))
  = cycleGas c /\
  map out_baselineSet
    (snd (runCycles powf_one (pre ++ c :: post) initial_globals))
  = [false; false; true; false].
Proof.
  cbv zeta.
  assert (H1 : baselineEstablished (baseline initial_globals) = false)
    by reflexivity.
  assert (H2 : Forall (fun c' => now c' <= BASELINE_DELAY_MS)
                 [cycle_at 5000 52000 0 true; cycle_at 120000 51000 0 true]).
  { repeat constructor; unfold BASELINE_DELAY_MS; simpl; lia. }
  assert (H3 : BASELINE_DELAY_MS < now (cycle_at 125000 50000 1 true)).
  { unfold BASELINE_DELAY_MS; simpl; lia. }
  destruct (baseline_locked_once_after_delay powf_one _
              [cycle_at 130000 40000 1 true] _ _ H1 H2 H3)
    as (_ & _ & (_ & Hb) & Hm).
  split; [exact H1|]. split; [exact H2|]. split; [exact H3|].
  split; [exact Hb|exact Hm].
Defined.

(** On an established tracker, a NaN reading over a baseline of 100 kOhm
    gives NaN, and so does any reading over a stored baseline that is NaN:
    in neither case is the tracker unestablished or the baseline at or
    below zero. *)
Lemma nan_gives_nan_index :
  ~ (F32.isnan
       (fst (computeSimpleVocIndex F32.NAN (established_baseline f100 f100 0)))
     = true <->
     baselineEstablished (established_baseline f100 f100 0) = false \/
     F32.leb (gasBaseline (established_baseline f100 f100 0)) f0 = true)
  /\
  ~ (F32.isnan
       (fst (computeSimpleVocIndex f50 (established_baseline F32.NAN f100 0)))
     = true <->
     baselineEstablished (established_baseline F32.NAN f100 0) = false \/
     F32.leb (gasBaseline (established_baseline F32.NAN f100 0)) f0 = true).
Proof.
  split; intros [H _]; destruct (H eq_refl) as [E|E]; discriminate E.
Qed.

(** Baseline 100 kOhm, reading 120 kOhm: the index is zero. *)
Lemma computeSimpleVocIndex_spec_witness :
  let b := established_baseline f100 f100 0 in
  let c := F32.of_Z 120 in
  F32.valid (gasBaseline b) = true /\ F32.valid c = true /\
  F32.ltb (gasBaseline b) c = true /\
  F32.is_zero (fst (computeSimpleVocIndex c b)) = true.
Proof.
  cbv zeta. split; [reflexivity|]. split; [reflexivity|].
  split; [reflexivity|].
  exact (proj2 (proj2 (proj2
           (computeSimpleVocIndex_spec (F32.of_Z 120)
              (established_baseline f100 f100 0))))
           eq_refl eq_refl eq_refl eq_refl).
Defined.

(** An index of 30 is Poor. *)
Lemma classifyLabel_bands_witness :
  F32.isnan (F32.of_Z 30) = false /\
  F32.geb (F32.of_Z 30) f25 = true /\ F32.ltb (F32.of_Z 30) f50 = true /\
  classifyLabel (F32.of_Z 30) = Poor.
Proof.
  split; [reflexivity|]. split; [reflexivity|]. split; [reflexivity|].
  destruct (proj1 (proj2 (classifyLabel_bands (F32.of_Z 30))) eq_refl)
    as (_ & _ & _ & _ & HP & _).
  apply HP. split; reflexivity.
Defined.

(** Readings of 50 kOhm at 125 s (the lock, which also resets the window)
    and 40 kOhm at 130 s bring the window minimum to 40 kOhm; the cycle at
    160 s reading 80 kOhm resets it to 80 kOhm. *)
Lemma window_reset_takes_current_reading_witness :
  let g := fst (runCycles powf_one
                  [cycle_at 125000 50000 0 true; cycle_at 130000 40000 0 true]
                  initial_globals) in
  let inp := cycle_at 160000 80000 0 true in
  gasMinWindow (baseline g) = F32.of_Z 40 /\
  lastWindowUpdate (baseline g) = 125000 /\
  out_windowReset (snd (sampleCycle powf_one inp g)) = true /\
  gasMinWindow (baseline (fst (sampleCycle powf_one inp g))) = F32.of_Z 80 /\
  lastWindowUpdate (baseline (fst (sampleCycle powf_one inp g))) = 160000.
Proof.
  cbv zeta.
  set (g := fst (runCycles powf_one
                   [cycle_at 125000 50000 0 true; cycle_at 130000 40000 0 true]
                   initial_globals)).
  destruct (window_reset_takes_current_reading powf_one
              (cycle_at 160000 80000 0 true) g) as (Hr & Hw & _).
  assert (R : out_windowReset
                (snd (sampleCycle powf_one (cycle_at 160000 80000 0 true) g))
              = true) by (rewrite Hr; reflexivity).
  destruct (Hw R) as (W1 & _ & W3).
  split; [reflexivity|]. split; [reflexivity|].
  split; [exact R|]. split; [exact W1|exact W3].
Defined.

(** Accuracy 3 and no save for 5 minutes: the save is attempted, the blob
    is not written, and [lastStateSave] is the cycle's time all the same. *)
Lemma save_when_accurate_and_due_witness :
  let g := established_globals f100 f100 280000 0 in
  let inp := cycle_at 300000 50000 3 false in
  shouldSave (now inp) (accuracy (dIaq inp)) g = true /\
  out_saved (snd (sampleCycle powf_one inp g)) = Some false /\
  lastStateSave (fst (sampleCycle powf_one inp g)) = 300000.
Proof.
  cbv zeta. split; [reflexivity|].
  destruct (proj1 (save_when_accurate_and_due powf_one)
              (cycle_at 300000 50000 3 false)
              (established_globals f100 f100 280000 0))
    as (_ & Hs & _).
  exact (Hs eq_refl).
Defined.

(** Accuracies 0, 3, 1 over three cycles: fallback, vendor, fallback. *)
Lemma selection_follows_current_accuracy_witness :
  map (fun o => is_fallback (out_shown o))
    (snd (runCycles powf_one
            [cycle_at 5000 50000 0 true; cycle_at 10000 50000 3 true;
             cycle_at 15000 50000 1 true] initial_globals))
  = [true; false; true].
Proof.
  exact (proj2 (proj2 (selection_follows_current_accuracy powf_one))
           [cycle_at 5000 50000 0 true; cycle_at 10000 50000 3 true;
            cycle_at 15000 50000 1 true] initial_globals).
Defined.

(** A cycle with raw pressure 101325 and raw gas 50000 reports 1013.25 hPa
    and 50 kOhm. *)
Lemma unit_normalization_witness :
  let o := snd (sampleCycle powf_one (cycle_at 5000 50000 0 true)
                  initial_globals) in
  pressure_hPa (out_vals o) = F32.of_ratio 101325 100 /\
  gas_kOhm (out_vals o) = f50.
Proof.
  cbv zeta.
  destruct (proj2 (proj2 (proj2 (unit_normalization powf_one)))
              (cycle_at 5000 50000 0 true) initial_globals) as (Hp & Hg).
  rewrite Hp, Hg. split; reflexivity.
Defined.

(** Window minima 40 and 90 kOhm, baseline 100 kOhm, reading 75 kOhm: the
    same index. *)
Lemma index_independent_of_window_witness :
  fst (computeSimpleVocIndex (F32.of_Z 75)
         (established_baseline f100 (F32.of_Z 40) 0))
  = fst (computeSimpleVocIndex (F32.of_Z 75)
           (established_baseline f100 (F32.of_Z 90) 0)).
Proof.
  exact (proj1 (index_independent_of_window powf_one)
           (F32.of_Z 75) true f100 (F32.of_Z 40) (F32.of_Z 90) 0 0).
Defined.

(** With [powf_id] for [pow] and the reference 1013.25 hPa: the altitude
    is zero at the reference, and 1020 hPa lies no higher than 1000 hPa. *)
Lemma calcAltitude_nonincreasing_and_zero_witness :
  powf_id f1 f0_1903 = f1 /\
  calcAltitude powf_id gSeaLevelPressure gSeaLevelPressure = f0 /\
  F32.leb (F32.of_Z 1000) (F32.of_Z 1020) = true /\
  F32.leb (calcAltitude powf_id gSeaLevelPressure (F32.of_Z 1020))
          (calcAltitude powf_id gSeaLevelPressure (F32.of_Z 1000)) = true.
Proof.
  destruct (calcAltitude_nonincreasing_and_zero powf_id) as (_ & _ & Z & M).
  split; [reflexivity|].
  split; [exact (Z false 16601088%positive (-14) eq_refl)|].
  split; [reflexivity|].
  exact (M (fun a H => H) (fun a b _ _ _ H => H)
           16601088%positive (-14) 16384000%positive (-14)
           16711680%positive (-14) eq_refl eq_refl eq_refl).
Defined.

(** The altitude is not strictly decreasing in the pressure: 1020 hPa and
    the next float above it, both valid and positive, have the same quotient
    by the reference 1013.25 hPa, hence the same altitude whatever [pow] is;
    the higher pressure does not give a lower altitude. *)
Lemma higher_pressure_same_altitude :
  F32.valid (F32.of_Z 1020) = true /\
  F32.valid (S754_finite false 16711681 (-14)) = true /\
  F32.ltb f0 gSeaLevelPressure = true /\
  F32.ltb f0 (F32.of_Z 1020) = true /\
  F32.ltb (F32.of_Z 1020) (S754_finite false 16711681 (-14)) = true /\
  forall powf : float -> float -> float,
    calcAltitude powf gSeaLevelPressure (S754_finite false 16711681 (-14))
    = calcAltitude powf gSeaLevelPressure (F32.of_Z 1020) /\
    F32.ltb
      (calcAltitude powf gSeaLevelPressure (S754_finite false 16711681 (-14)))
      (calcAltitude powf gSeaLevelPressure (F32.of_Z 1020)) = false.
Proof.
  do 5 (split; [reflexivity|]).
  intros powf.
  assert (E : calcAltitude powf gSeaLevelPressure
                (S754_finite false 16711681 (-14))
              = calcAltitude powf gSeaLevelPressure (F32.of_Z 1020)).
  { unfold calcAltitude.
    replace (F32.div (S754_finite false 16711681 (-14)) gSeaLevelPressure)
      with (F32.div (F32.of_Z 1020) gSeaLevelPressure)
      by (vm_compute; reflexivity).
    reflexivity. }
  split; [exact E|]. rewrite E.
  set (x := calcAltitude powf gSeaLevelPressure (F32.of_Z 1020)).
  unfold F32.ltb, SFltb. pose proof (SFcompare_antisym x x) as A.
  destruct (SFcompare x x) as [[]|]; try reflexivity; discriminate.
Qed.

(** * More of the program *)

(** ** The I2C scans *)

Lemma u8_small z : 0 <= z < 256 -> u8 z = z.
Proof. intros H. unfold u8. now apply Z.mod_small. Qed.

Lemma addrs_from_bounds a n :
  Forall (fun x => a <= x < a + Z.of_nat n) (addrs_from a n).
Proof.
  revert a; induction n as [|n IH]; intros a; [constructor|].
  cbn [addrs_from]. constructor; [lia|].
  eapply Forall_impl; [|apply IH]. intros x Hx. cbv beta in *. lia.
Qed.

Lemma filter_length_le {A} (f : A -> bool) (l : list A) :
  (List.length (filter f l) <= List.length l)%nat.
Proof.
  induction l as [|x l IH]; simpl; [lia|]. destruct (f x); simpl; lia.
Qed.

Lemma addrs_from_length a n : List.length (addrs_from a n) = n.
Proof. revert a; induction n as [|n IH]; intros a; simpl; auto. Qed.

Lemma i2cScanLoop_spec ack n :
  forall fuel a c found,
    (n < fuel)%nat -> 1 <= a -> a + Z.of_nat n = 127 ->
    0 <= c -> c + Z.of_nat n < 256 ->
    i2cScanLoop ack fuel a c found
    = Some (found ++ filter ack (addrs_from a n),
            c + Z.of_nat (List.length (filter ack (addrs_from a n)))).
Proof.
  induction n as [|n IH]; intros fuel a c found Hf Ha Hn Hc Hb;
    (destruct fuel as [|fuel]; [lia|]); cbn [i2cScanLoop addrs_from filter].
  - replace (a <? 127) with false by (symmetry; apply Z.ltb_ge; lia).
    now rewrite app_nil_r, Z.add_0_r.
  - replace (a <? 127) with true by (symmetry; apply Z.ltb_lt; lia).
    rewrite (u8_small (a + 1)) by lia.
    destruct (ack a).
    + rewrite (u8_small (c + 1)) by lia.
      rewrite IH by lia. rewrite <- app_assoc. cbn [app List.length].
      do 2 f_equal. lia.
    + now rewrite IH by lia.
Qed.

Lemma scanI2CLoop_spec ack n :
  forall fuel a c found,
    (n < fuel)%nat -> 1 <= a -> a + Z.of_nat n = 127 ->
    scanI2CLoop ack fuel a c found
    = Some (found ++ filter ack (addrs_from a n),
            c + Z.of_nat (List.length (filter ack (addrs_from a n)))).
Proof.
  induction n as [|n IH]; intros fuel a c found Hf Ha Hn;
    (destruct fuel as [|fuel]; [lia|]); cbn [scanI2CLoop addrs_from filter].
  - replace (a <? 127) with false by (symmetry; apply Z.ltb_ge; lia).
    now rewrite app_nil_r, Z.add_0_r.
  - replace (a <? 127) with true by (symmetry; apply Z.ltb_lt; lia).
    rewrite (u8_small (a + 1)) by lia.
    destruct (ack a).
    + rewrite IH by lia. rewrite <- app_assoc. cbn [app List.length].
      do 2 f_equal. lia.
    + now rewrite IH by lia.
Qed.

(** X1: given fuel for 127 passes, both scans end, and report exactly the
    addresses from 1 to 126 that acknowledge, in increasing order, with a
    count equal to their number: at most 126, so the 8-bit counter of
    [i2cScan] never wraps, and addresses 0 and 127 are never probed. *)
Theorem i2c_scans_count_acknowledging_addresses (ack : Z -> bool) (fuel : nat) :
  (127 <= fuel)%nat ->
  let hits := filter ack (addrs_from 1 126) in
  i2cScan ack fuel = Some (hits, Z.of_nat (List.length hits)) /\
  scanI2C ack fuel = Some (hits, Z.of_nat (List.length hits)) /\
  Z.of_nat (List.length hits) <= 126 /\
  Forall (fun a => 1 <= a <= 126 /\ ack a = true) hits.
Proof.
  intros Hf hits. unfold i2cScan, scanI2C.
  rewrite (i2cScanLoop_spec ack 126) by lia.
  rewrite (scanI2CLoop_spec ack 126) by lia.
  fold hits. cbn [app]. repeat split; try reflexivity.
  - pose proof (filter_length_le ack (addrs_from 1 126)) as H.
    rewrite addrs_from_length in H. fold hits in H. lia.
  - apply Forall_forall. intros a Ha. unfold hits in Ha.
    apply filter_In in Ha. destruct Ha as [Hin Hack].
    pose proof (addrs_from_bounds 1 126) as HB.
    rewrite Forall_forall in HB. specialize (HB a Hin). cbv beta in HB.
    split; [lia|exact Hack].
Qed.

(** ** The saved state *)

Lemma nvs_get_putBytes s ns key v :
  Persist.nvs_get (Persist.putBytes s ns key v) ns key = Some v.
Proof.
  unfold Persist.putBytes. cbn [Persist.nvs_get].
  now rewrite !String.eqb_refl.
Qed.

(** X2: a state that [saveState] stored is what [loadState] hands to the
    sensor library, byte for byte whatever the array held before; this also
    holds when other saves came earlier, and when a later [saveState] found
    no state to save. *)
Theorem saved_state_is_loaded_back
  (MAX : nat) (s : Persist.Nvs) (blob stack : list Byte.byte)
  (older : option (list Byte.byte)) :
  (0 < MAX)%nat ->
  List.length blob = MAX ->
  List.length stack = MAX ->
  let s1 := Persist.saveState MAX (Persist.saveState MAX s older) (Some blob) in
  Persist.loadState MAX s1 stack = Some blob /\
  Persist.loadState MAX (Persist.saveState MAX s1 None) stack = Some blob.
Proof.
  intros H0 Hb Hs; cbv zeta.
  assert (L : forall s0,
             Persist.loadState MAX (Persist.saveState MAX s0 (Some blob)) stack
             = Some blob).
  { intros s0. unfold Persist.loadState, Persist.saveState,
      Persist.getBytesLength.
    rewrite nvs_get_putBytes.
    assert (F : firstn MAX blob = blob) by (rewrite <- Hb; apply firstn_all).
    assert (K : skipn MAX stack = []) by (rewrite <- Hs; apply skipn_all).
    rewrite F, Hb, F, K.
    replace (0 <? MAX)%nat with true by (symmetry; now apply Nat.ltb_lt).
    rewrite Nat.leb_refl. cbn [andb]. now rewrite app_nil_r. }
  split; [apply L|]. cbn [Persist.saveState]. apply L.
Qed.

(** X3: [loadState] hands a blob to the sensor library only when the store
    holds one of 1 to [BSEC_MAX_STATE_BLOB_SIZE] bytes under the key; with a
    missing key, an empty blob or a longer one the library is not called.
    The blob handed over has the size of the array and starts with the
    stored bytes. *)
Theorem loadState_guards
  (MAX : nat) (s : Persist.Nvs) (stack : list Byte.byte) :
  List.length stack = MAX ->
  match Persist.nvs_get s Persist.PREF_NAMESPACE Persist.PREF_KEY_STATE with
  | None => Persist.loadState MAX s stack = None
  | Some v =>
      if (0 <? List.length v)%nat && (List.length v <=? MAX)%nat
      then exists b,
          Persist.loadState MAX s stack = Some b /\
          List.length b = MAX /\
          firstn (List.length v) b = v
      else Persist.loadState MAX s stack = None
  end.
Proof.
  intros Hs. unfold Persist.loadState, Persist.getBytesLength.
  destruct (Persist.nvs_get s Persist.PREF_NAMESPACE Persist.PREF_KEY_STATE)
    as [v|]; [|reflexivity].
  destruct ((0 <? List.length v)%nat && (List.length v <=? MAX)%nat) eqn:G;
    [|reflexivity].
  apply andb_prop in G. destruct G as [_ G]. apply Nat.leb_le in G.
  rewrite firstn_all. eexists. split; [reflexivity|]. split.
  - rewrite length_app, length_skipn. lia.
  - rewrite firstn_app, Nat.sub_diag, firstn_all. cbn [firstn].
    now rewrite app_nil_r.
Qed.

(** ** The window minimum and the index around the lock *)

Lemma ltb_irrefl x : F32.ltb x x = false.
Proof.
  unfold F32.ltb, SFltb.
  destruct x as [s|s| |s m e]; simpl; try reflexivity;
    try (destruct s; reflexivity).
  destruct s; rewrite Z.compare_refl, Pos.compare_cont_refl; reflexivity.
Qed.

Lemma ltb_asym x y : F32.ltb x y = true -> F32.ltb y x = false.
Proof.
  unfold F32.ltb, SFltb. rewrite (SFcompare_antisym x y).
  destruct (SFcompare x y) as [[]|]; simpl; try discriminate; reflexivity.
Qed.

Lemma ltb_nan_l y : F32.ltb S754_nan y = false.
Proof. reflexivity. Qed.

Lemma computeSimpleVocIndex_window c b :
  F32.isnan (fst (computeSimpleVocIndex c b)) = false ->
  let w' := gasMinWindow (snd (computeSimpleVocIndex c b)) in
  F32.ltb c w' = false /\
  (w' = c \/ w' = gasMinWindow b) /\
  F32.ltb (gasMinWindow b) w' = false.
Proof.
  unfold computeSimpleVocIndex.
  destruct (negb (baselineEstablished b) || F32.isnan (gasBaseline b)
            || F32.leb (gasBaseline b) f0); cbn [fst snd gasMinWindow];
    [discriminate|]. intros _.
  destruct (F32.isnan (gasMinWindow b)) eqn:W.
  - rewrite ltb_irrefl. split; [apply ltb_irrefl|]. split; [now left|].
    destruct (gasMinWindow b); try discriminate. reflexivity.
  - destruct (F32.ltb c (gasMinWindow b)) eqn:L.
    + split; [apply ltb_irrefl|]. split; [now left|]. now apply ltb_asym.
    + split; [exact L|]. split; [now right|]. apply ltb_irrefl.
Qed.

Lemma establishBaseline_idle t gas b :
  snd (establishBaseline t gas b) = false -> fst (establishBaseline t gas b) = b.
Proof. unfold establishBaseline. destruct (negb _ && _); [discriminate|auto]. Qed.

Lemma resetWindow_idle t gas b :
  snd (resetWindow t gas b) = false -> fst (resetWindow t gas b) = b.
Proof. unfold resetWindow. destruct (_ && _); [discriminate|auto]. Qed.

Lemma establishBaseline_window t gas b :
  gasMinWindow (fst (establishBaseline t gas b)) = gas \/
  gasMinWindow (fst (establishBaseline t gas b)) = gasMinWindow b.
Proof. unfold establishBaseline. destruct (negb _ && _); simpl; auto. Qed.

(** The tracker as [computeSimpleVocIndex] finds it in a cycle. *)
Lemma tracker_before_index t gas b :
  let b2 := fst (resetWindow t gas (fst (establishBaseline t gas b))) in
  baselineEstablished b2 = baselineEstablished b || (BASELINE_DELAY_MS <? t) /\
  gasBaseline b2
  = (if negb (baselineEstablished b) && (BASELINE_DELAY_MS <? t)
     then gas else gasBaseline b).
Proof.
  cbv zeta.
  destruct (resetWindow_frame t gas (fst (establishBaseline t gas b)))
    as (R1 & R2 & _).
  rewrite R1, R2. unfold establishBaseline.
  destruct (baselineEstablished b) eqn:E, (BASELINE_DELAY_MS <? t);
    simpl; auto.
Qed.

Lemma sub_self s m e :
  F32.sub (S754_finite s m e) (S754_finite s m e) = S754_zero false.
Proof. unfold F32.sub, SFsub. now rewrite Z.sub_diag. Qed.

Lemma indexFormula_self m e :
  indexFormula (S754_finite false m e) (S754_finite false m e) = f0.
Proof. unfold indexFormula, rawIndex. now rewrite sub_self. Qed.

Section Window.

Variable powf : float -> float -> float.

(** X4: in every sampling cycle that yields an index (not NaN), the window
    minimum afterwards is not above the cycle's reading and is either that
    reading or the minimum held before; and it is never above the minimum
    held before unless the cycle reset the window or locked the baseline. *)
Theorem window_minimum_tracks_readings inp g :
  let gas := cycleGas inp in
  let g' := fst (sampleCycle powf inp g) in
  let o := snd (sampleCycle powf inp g) in
  F32.isnan (simpleVocIndex (out_vals o)) = false ->
  F32.ltb gas (gasMinWindow (baseline g')) = false /\
  (gasMinWindow (baseline g') = gas \/
   gasMinWindow (baseline g') = gasMinWindow (baseline g)) /\
  (out_windowReset o = false -> out_baselineSet o = false ->
   F32.ltb (gasMinWindow (baseline g)) (gasMinWindow (baseline g')) = false).
Proof.
  cbv zeta.
  destruct (sampleCycle_fields powf inp g)
    as (Hb & _ & _ & Hi & _ & _ & _ & _ & _ & _ & _ & Hs & Hr & _).
  rewrite Hb, Hi, Hs, Hr. intros Hn.
  set (b1 := fst (establishBaseline (now inp) (cycleGas inp) (baseline g))) in *.
  set (b2 := fst (resetWindow (now inp) (cycleGas inp) b1)) in *.
  destruct (computeSimpleVocIndex_window (cycleGas inp) b2 Hn)
    as (W1 & W2 & W3).
  split; [exact W1|]. split.
  - destruct W2 as [W2|W2]; [now left|]. rewrite W2.
    destruct (resetWindow_frame (now inp) (cycleGas inp) b1) as (_ & _ & [R|R]);
      fold b2 in R; rewrite R; [now left|].
    apply establishBaseline_window.
  - intros Hr0 Hs0.
    assert (E2 : b2 = b1) by (apply resetWindow_idle; exact Hr0).
    assert (E1 : b1 = baseline g) by (apply establishBaseline_idle; exact Hs0).
    rewrite <- E1, <- E2. exact W3.
Qed.

(** X5: the cycle that locks the baseline on a positive finite reading
    reports the index 0 and the best label. *)
Theorem lock_cycle_reports_zero inp g m e :
  baselineEstablished (baseline g) = false ->
  BASELINE_DELAY_MS < now inp ->
  cycleGas inp = S754_finite false m e ->
  let o := snd (sampleCycle powf inp g) in
  out_baselineSet o = true /\
  simpleVocIndex (out_vals o) = f0 /\
  out_label o = label_text Excellent.
Proof.
  intros He Ht Hg; cbv zeta.
  destruct (sampleCycle_lock powf inp g He Ht) as (_ & _ & _ & L).
  destruct (sampleCycle_fields powf inp g)
    as (_ & _ & _ & Hi & _ & _ & _ & _ & _ & _ & Hl & _).
  destruct (tracker_before_index (now inp) (cycleGas inp) (baseline g))
    as (T1 & T2).
  rewrite He in T1, T2. apply Z.ltb_lt in Ht. rewrite Ht in T1, T2.
  cbn [negb andb orb] in T1, T2.
  assert (K : fst (computeSimpleVocIndex (cycleGas inp)
                (fst (resetWindow (now inp) (cycleGas inp)
                   (fst (establishBaseline (now inp) (cycleGas inp)
                           (baseline g)))))) = f0).
  { rewrite computeSimpleVocIndex_open.
    - rewrite T2, Hg. apply indexFormula_self.
    - exact T1.
    - rewrite T2, Hg. reflexivity.
    - rewrite T2, Hg. reflexivity. }
  rewrite Hi, Hl, K. auto.
Qed.

Lemma sampleCycle_index_closed inp g :
  let b2 := fst (resetWindow (now inp) (cycleGas inp)
                   (fst (establishBaseline (now inp) (cycleGas inp)
                           (baseline g)))) in
  F32.isnan (gasBaseline b2) = true \/ F32.leb (gasBaseline b2) f0 = true ->
  F32.isnan (simpleVocIndex (out_vals (snd (sampleCycle powf inp g)))) = true /\
  out_label (snd (sampleCycle powf inp g)) = label_text Building.
Proof.
  cbv zeta. intros H.
  destruct (sampleCycle_fields powf inp g)
    as (_ & _ & _ & Hi & _ & _ & _ & _ & _ & _ & Hl & _).
  rewrite Hi, Hl, computeSimpleVocIndex_closed by tauto. auto.
Qed.

Lemma runCycles_index_closed cs g :
  baselineEstablished (baseline g) = true ->
  F32.isnan (gasBaseline (baseline g)) = true \/
  F32.leb (gasBaseline (baseline g)) f0 = true ->
  Forall (fun o => F32.isnan (simpleVocIndex (out_vals o)) = true /\
                   out_label o = label_text Building)
    (snd (runCycles powf cs g)).
Proof.
  revert g; induction cs as [|c cs IH]; intros g He Hbad; [constructor|].
  rewrite runCycles_cons. cbn [snd].
  destruct (sampleCycle_keep powf c g He) as (K1 & K2 & _).
  constructor.
  - apply sampleCycle_index_closed.
    destruct (tracker_before_index (now c) (cycleGas c) (baseline g))
      as (_ & T2).
    rewrite T2, He. exact Hbad.
  - apply IH; [exact K1|now rewrite K2].
Qed.

(** X6: when the reading of the locking cycle is NaN, zero or negative,
    the baseline is locked all the same, and the index stays NaN, labelled
    Building, in that cycle and in every later cycle of the run. *)
Theorem unusable_lock_reading_disables_index c post g :
  baselineEstablished (baseline g) = false ->
  BASELINE_DELAY_MS < now c ->
  F32.isnan (cycleGas c) = true \/ F32.leb (cycleGas c) f0 = true ->
  baselineEstablished (baseline (fst (runCycles powf (c :: post) g))) = true /\
  gasBaseline (baseline (fst (runCycles powf (c :: post) g))) = cycleGas c /\
  Forall (fun o => F32.isnan (simpleVocIndex (out_vals o)) = true /\
                   out_label o = label_text Building)
    (snd (runCycles powf (c :: post) g)).
Proof.
  intros He Ht Hbad.
  destruct (sampleCycle_lock powf c g He Ht) as (L1 & L2 & _ & _).
  destruct (runCycles_keep powf post _ L1) as (K1 & K2 & _).
  rewrite runCycles_cons. cbn [fst snd]. rewrite K1, K2, L2.
  split; [reflexivity|]. split; [reflexivity|]. constructor.
  - apply sampleCycle_index_closed.
    destruct (tracker_before_index (now c) (cycleGas c) (baseline g))
      as (_ & T2).
    rewrite T2, He. apply Z.ltb_lt in Ht. rewrite Ht. exact Hbad.
  - apply runCycles_index_closed; [exact L1|now rewrite L2].
Qed.

End Window.

(** X7: a larger index never gets a better label: if [x < y] then the
    label of [x] is not worse than the label of [y]. *)
Theorem classifyLabel_monotone x y :
  F32.ltb x y = true ->
  (rank (classifyLabel x) <= rank (classifyLabel y))%nat /\
  classifyLabel x <> Building /\ classifyLabel y <> Building.
Proof.
  intros L.
  assert (Nx : F32.isnan x = false) by (destruct x; try reflexivity; discriminate).
  assert (Ny : F32.isnan y = false)
    by (destruct y; try reflexivity; destruct x; discriminate).
  assert (A : forall k, F32.ltb y k = true -> F32.ltb x k = true)
    by (intros k Hk; now apply (ltb_trans x y k)).
  pose proof (A f2) as A2. pose proof (A f10) as A10.
  pose proof (A f25) as A25. pose proof (A f50) as A50.
  unfold classifyLabel. rewrite Nx, Ny.
  destruct (F32.ltb y f2), (F32.ltb y f10), (F32.ltb y f25), (F32.ltb y f50);
    try rewrite (A2 eq_refl); try rewrite (A10 eq_refl);
    try rewrite (A25 eq_refl); try rewrite (A50 eq_refl);
    destruct (F32.ltb x f2), (F32.ltb x f10), (F32.ltb x f25),
      (F32.ltb x f50);
    cbn [rank]; repeat split; try lia; try discriminate.
Qed.

(** ** Runs of [loop] *)

Section Passes.

Variable powf : float -> float -> float.

(** [loop] with the effect of the buttons on [lastUpdate] spelled out. *)
Lemma loop_after_buttons inp g :
  let gC := if forced inp then set_lastUpdate 0 g else g in
  let re := if btnC inp
            then Some ((beginLow inp || beginHigh inp) && subscribeOk inp)
            else None in
  loop powf inp g
  = if got inp && (UPDATE_INTERVAL_MS <=? usub (now inp) (lastUpdate gC))
    then (fst (sampleCycle powf inp gC),
          {| out_scanned := btnB inp; out_reinit := re;
             out_cycle := Some (snd (sampleCycle powf inp gC));
             out_warned := false |})
    else if negb (got inp)
    then (set_warnedOnce true gC,
          {| out_scanned := btnB inp; out_reinit := re;
             out_cycle := None; out_warned := negb (warnedOnce gC) |})
    else (gC, {| out_scanned := btnB inp; out_reinit := re;
                 out_cycle := None; out_warned := false |}).
Proof.
  cbv zeta. unfold loop, forced, initBsec2.
  destruct (btnA inp), (btnC inp), (beginLow inp), (beginHigh inp),
    (subscribeOk inp); cbn [negb andb orb];
    match goal with
    | |- (let '(_, _) := if ?c then _ else _ in _) = _ => destruct c
    | _ => idtac
    end;
    try (destruct (sampleCycle powf inp _); reflexivity);
    match goal with
    | |- context [got inp && ?d] =>
        destruct (got inp && d);
        [destruct (sampleCycle powf inp _); reflexivity|reflexivity]
    end.
Qed.

Lemma loop_sampled inp g :
  sampled (snd (loop powf inp g))
  = got inp
    && (UPDATE_INTERVAL_MS
          <=? usub (now inp) (if forced inp then 0 else lastUpdate g)).
Proof.
  rewrite loop_after_buttons. cbv zeta.
  replace (lastUpdate (if forced inp then set_lastUpdate 0 g else g))
    with (if forced inp then 0 else lastUpdate g)
    by (now destruct (forced inp)).
  destruct (got inp && _); [reflexivity|].
  now destruct (negb (got inp)).
Qed.

Lemma loop_lastUpdate inp g :
  lastUpdate (fst (loop powf inp g))
  = if sampled (snd (loop powf inp g)) then now inp
    else if forced inp then 0 else lastUpdate g.
Proof.
  rewrite loop_after_buttons. cbv zeta.
  destruct (got inp && _).
  - cbn [fst snd sampled out_cycle].
    now destruct (sampleCycle_fields powf inp
                    (if forced inp then set_lastUpdate 0 g else g))
      as (_ & _ & H & _).
  - destruct (negb (got inp)), (forced inp); reflexivity.
Qed.

(** X8: a pass of [loop] runs a sampling cycle exactly when new data is
    ready and at least [UPDATE_INTERVAL_MS] have passed since [lastUpdate];
    button A, and button C when [initBsec2] succeeds, make this interval
    count from 0, so such a pass samples exactly when data is ready and
    [millis()] itself is at least [UPDATE_INTERVAL_MS], whatever
    [lastUpdate] was.  A pass that samples sets [lastUpdate] to its time. *)
Theorem refresh_is_forced_by_buttons inp g :
  (forced inp = true ->
   (sampled (snd (loop powf inp g)) = true <->
    got inp = true /\ UPDATE_INTERVAL_MS <= u32 (now inp)))
  /\ (forced inp = false ->
      (sampled (snd (loop powf inp g)) = true <->
       got inp = true /\
       UPDATE_INTERVAL_MS <= usub (now inp) (lastUpdate g)))
  /\ (sampled (snd (loop powf inp g)) = true ->
      lastUpdate (fst (loop powf inp g)) = now inp).
Proof.
  split; [|split].
  - intros F. rewrite loop_sampled, F, andb_true_iff, Z.leb_le.
    unfold usub. now rewrite Z.sub_0_r.
  - intros F. now rewrite loop_sampled, F, andb_true_iff, Z.leb_le.
  - intros S. now rewrite loop_lastUpdate, S.
Qed.

Lemma runLoop_cons p ps g :
  runLoop powf (p :: ps) g
  = (fst (runLoop powf ps (fst (loop powf p g))),
     snd (loop powf p g) :: snd (runLoop powf ps (fst (loop powf p g)))).
Proof.
  cbn [runLoop]. destruct (loop powf p g) as [g1 o].
  cbn [fst snd]. now destruct (runLoop powf ps g1).
Qed.

(** X9: over a run of passes in which no button zeroes [lastUpdate], each
    sampling cycle comes at least [UPDATE_INTERVAL_MS] after the one
    before, the first one after the initial [lastUpdate]. *)
Theorem sampling_cycles_are_spaced ps g :
  Forall (fun p => forced p = false) ps ->
  spacedBy UPDATE_INTERVAL_MS (lastUpdate g)
    (timesOf sampled ps (snd (runLoop powf ps g))).
Proof.
  intros H; revert g; induction H as [|p ps Hp Hps IH]; intros g;
    [exact I|].
  rewrite runLoop_cons. cbn [snd timesOf].
  specialize (IH (fst (loop powf p g))).
  rewrite loop_lastUpdate, Hp in IH.
  destruct (sampled (snd (loop powf p g))) eqn:S; [|exact IH].
  cbn [spacedBy]. split; [|exact IH].
  rewrite loop_sampled, Hp in S. apply andb_prop in S.
  now apply Z.leb_le.
Qed.

Lemma loop_pass_saved p g :
  (pass_saved (snd (loop powf p g)) = true ->
   SAVE_PERIOD_MS <= usub (now p) (lastStateSave g) /\
   lastStateSave (fst (loop powf p g)) = now p)
  /\ (pass_saved (snd (loop powf p g)) = false ->
      lastStateSave (fst (loop powf p g)) = lastStateSave g).
Proof.
  destruct (loop_samples_or_skips powf p g)
    as [(gC & _ & Hs & Hg & Ho) | (Ho & _ & Hs)].
  - unfold pass_saved. rewrite Ho, Hg.
    destruct (sampleCycle_save powf p gC) as (So & Ss).
    rewrite So, Ss, Hs.
    destruct (shouldSave (now p) (accuracy (dIaq p)) gC) eqn:E.
    + apply shouldSave_iff in E. rewrite Hs in E.
      split; [intros _; tauto|discriminate].
    + split; [discriminate|reflexivity].
  - unfold pass_saved. rewrite Ho, Hs. split; [discriminate|reflexivity].
Qed.

(** X10: over any run of passes of [loop], whatever the buttons and the
    sensor do, each save of the state comes at least [SAVE_PERIOD_MS]
    (5 minutes) after the one before, the first one after the initial
    [lastStateSave]. *)
Theorem saves_are_spaced_over_any_run ps g :
  spaced (lastStateSave g)
    (timesOf pass_saved ps (snd (runLoop powf ps g))).
Proof.
  revert g; induction ps as [|p ps IH]; intros g; [exact I|].
  rewrite runLoop_cons. cbn [snd timesOf].
  specialize (IH (fst (loop powf p g))).
  destruct (loop_pass_saved p g) as (H1 & H0).
  destruct (pass_saved (snd (loop powf p g))).
  - destruct (H1 eq_refl) as (Hd & Hs). rewrite Hs in IH.
    cbn [spaced]. split; assumption.
  - now rewrite (H0 eq_refl) in IH.
Qed.

Lemma sampleCycle_established inp g :
  baselineEstablished (baseline (fst (sampleCycle powf inp g)))
  = baselineEstablished (baseline g)
    || out_baselineSet (snd (sampleCycle powf inp g)) /\
  (out_baselineSet (snd (sampleCycle powf inp g)) = true ->
   baselineEstablished (baseline g) = false).
Proof.
  destruct (sampleCycle_fields powf inp g)
    as (Hb & _ & _ & _ & _ & _ & _ & _ & _ & _ & _ & Hs & _).
  rewrite Hb, Hs.
  destruct (computeSimpleVocIndex_frame (cycleGas inp)
              (fst (resetWindow (now inp) (cycleGas inp)
                 (fst (establishBaseline (now inp) (cycleGas inp)
                         (baseline g)))))) as (F1 & _).
  destruct (tracker_before_index (now inp) (cycleGas inp) (baseline g))
    as (T1 & _).
  rewrite F1, T1. unfold establishBaseline.
  destruct (baselineEstablished (baseline g)), (BASELINE_DELAY_MS <? now inp);
    simpl; auto.
Qed.

Lemma loop_pass_locked p g :
  baselineEstablished (baseline (fst (loop powf p g)))
  = baselineEstablished (baseline g) || pass_locked (snd (loop powf p g)) /\
  (pass_locked (snd (loop powf p g)) = true ->
   baselineEstablished (baseline g) = false).
Proof.
  destruct (loop_samples_or_skips powf p g)
    as [(gC & Hb & _ & Hg & Ho) | (Ho & Hb & _)].
  - unfold pass_locked. rewrite Ho, Hg.
    destruct (sampleCycle_established p gC) as (E1 & E2).
    rewrite E1, Hb. split; [reflexivity|]. intros L. rewrite <- Hb. auto.
  - unfold pass_locked. rewrite Ho, Hb, orb_false_r.
    split; [reflexivity|discriminate].
Qed.

(** X11: over any run of passes of [loop] the baseline is locked at most
    once, and never when the run starts established; the tracker is
    established at the end exactly when it was at the start or some pass
    locked it. *)
Theorem baseline_locked_at_most_once_over_any_run ps g :
  let os := snd (runLoop powf ps g) in
  (List.length (filter pass_locked os) <= 1)%nat /\
  (baselineEstablished (baseline g) = true ->
   List.length (filter pass_locked os) = 0%nat) /\
  baselineEstablished (baseline (fst (runLoop powf ps g)))
  = baselineEstablished (baseline g) || existsb pass_locked os.
Proof.
  cbv zeta. revert g; induction ps as [|p ps IH]; intros g.
  - cbn. rewrite orb_false_r. repeat split; lia.
  - rewrite runLoop_cons. cbn [fst snd filter existsb].
    destruct (IH (fst (loop powf p g))) as (I1 & I2 & I3).
    destruct (loop_pass_locked p g) as (L1 & L2).
    rewrite I3, L1.
    destruct (pass_locked (snd (loop powf p g))) eqn:PL.
    + rewrite (L2 eq_refl) in *. cbn [orb] in L1.
      cbn [List.length orb]. rewrite (I2 L1).
      repeat split; try lia; discriminate.
    + rewrite orb_false_r in *. cbn [orb].
      split; [exact I1|]. split; [|reflexivity].
      intros E. apply I2. now rewrite L1.
Qed.

Lemma loop_warn p g :
  out_warned (snd (loop powf p g)) = negb (got p) && negb (warnedOnce g) /\
  warnedOnce (fst (loop powf p g)) = warnedOnce g || negb (got p).
Proof.
  rewrite loop_after_buttons. cbv zeta.
  assert (W : warnedOnce (if forced p then set_lastUpdate 0 g else g)
              = warnedOnce g) by (now destruct (forced p)).
  destruct (got p) eqn:G; cbn [andb negb].
  - rewrite orb_false_r.
    destruct (UPDATE_INTERVAL_MS <=? _); cbn [fst snd out_warned].
    + unfold sampleCycle.
      destruct (establishBaseline _ _ _), (resetWindow _ _ _),
        (computeSimpleVocIndex _ _). cbn [fst warnedOnce]. auto.
    + auto.
  - cbn [fst snd out_warned set_warnedOnce warnedOnce].
    rewrite W, orb_true_r. auto.
Qed.

(** X12: over any run of passes of [loop] the warning that no data is
    ready is given at most once: by the first pass without data, and only
    if it was not given before the run. *)
Theorem no_data_warning_is_given_once ps g :
  let os := snd (runLoop powf ps g) in
  List.length (filter out_warned os)
  = (if warnedOnce g || forallb got ps then 0%nat else 1%nat) /\
  warnedOnce (fst (runLoop powf ps g))
  = warnedOnce g || negb (forallb got ps).
Proof.
  cbv zeta. revert g; induction ps as [|p ps IH]; intros g.
  - cbn. rewrite orb_true_r, orb_false_r. auto.
  - rewrite runLoop_cons. cbn [fst snd filter forallb].
    destruct (IH (fst (loop powf p g))) as (I1 & I2).
    destruct (loop_warn p g) as (W1 & W2).
    rewrite W2 in I1. rewrite I2, W1, W2.
    destruct (warnedOnce g), (got p);
      cbn [negb andb orb List.length] in *; rewrite I1;
      destruct (forallb got ps); auto.
Qed.

End Passes.

(** ** The ends of the index scale, and the spacing of window resets *)

(** X13: on an established tracker with a positive finite baseline, a
    reading equal to the baseline gives the index 0, labelled Excellent,
    and a reading of zero gives exactly 100, labelled Severe. *)
Theorem index_scale_endpoints (b : Baseline) m e sz :
  baselineEstablished b = true ->
  gasBaseline b = S754_finite false m e ->
  fst (computeSimpleVocIndex (gasBaseline b) b) = f0 /\
  classifyLabel (fst (computeSimpleVocIndex (gasBaseline b) b)) = Excellent /\
  fst (computeSimpleVocIndex (S754_zero sz) b) = f100 /\
  classifyLabel (fst (computeSimpleVocIndex (S754_zero sz) b)) = Severe.
Proof.
  intros He Hb.
  assert (Z0 : fst (computeSimpleVocIndex (gasBaseline b) b) = f0).
  { rewrite computeSimpleVocIndex_open; rewrite ?Hb; auto.
    apply indexFormula_self. }
  assert (Z1 : fst (computeSimpleVocIndex (S754_zero sz) b) = f100).
  { rewrite computeSimpleVocIndex_open; rewrite ?Hb; auto.
    unfold indexFormula, rawIndex.
    replace (F32.sub (S754_finite false m e) (S754_zero sz))
      with (S754_finite false m e) by (now destruct sz).
    rewrite div_self. reflexivity. }
  rewrite Z0, Z1. repeat split.
Qed.

Section Resets.

Variable powf : float -> float -> float.

Lemma sampleCycle_window_time inp g :
  (out_windowReset (snd (sampleCycle powf inp g)) = true ->
   WINDOW_UPDATE_INTERVAL_MS
     < usub (now inp) (lastWindowUpdate (baseline g)) /\
   lastWindowUpdate (baseline (fst (sampleCycle powf inp g))) = now inp)
  /\ (out_windowReset (snd (sampleCycle powf inp g)) = false ->
      lastWindowUpdate (baseline (fst (sampleCycle powf inp g)))
      = lastWindowUpdate (baseline g)).
Proof.
  destruct (sampleCycle_fields powf inp g)
    as (Hb & _ & _ & _ & _ & _ & _ & _ & _ & _ & _ & _ & Hr & _).
  rewrite Hb, Hr.
  set (b1 := fst (establishBaseline (now inp) (cycleGas inp) (baseline g))).
  assert (E : lastWindowUpdate b1 = lastWindowUpdate (baseline g)).
  { unfold b1, establishBaseline. destruct (negb _ && _); reflexivity. }
  destruct (computeSimpleVocIndex_frame (cycleGas inp)
              (fst (resetWindow (now inp) (cycleGas inp) b1))) as (_ & _ & F).
  rewrite F. unfold resetWindow. rewrite E.
  destruct (baselineEstablished b1) eqn:E1; cbn [andb].
  - destruct (WINDOW_UPDATE_INTERVAL_MS <? _) eqn:D; cbn [fst snd lastWindowUpdate].
    + apply Z.ltb_lt in D. split; [auto|discriminate].
    + split; [discriminate|auto].
  - cbn [fst snd]. split; [discriminate|auto].
Qed.

(** X14: over any run of sampling cycles, each reset of the window comes
    more than [WINDOW_UPDATE_INTERVAL_MS] (30 s) after the one before, the
    first one after the initial [lastWindowUpdate]. *)
Theorem window_resets_are_spaced cs g :
  spacedBy (WINDOW_UPDATE_INTERVAL_MS + 1) (lastWindowUpdate (baseline g))
    (cycleTimesOf out_windowReset cs (snd (runCycles powf cs g))).
Proof.
  revert g; induction cs as [|c cs IH]; intros g; [exact I|].
  rewrite runCycles_cons. cbn [snd cycleTimesOf].
  specialize (IH (fst (sampleCycle powf c g))).
  destruct (sampleCycle_window_time c g) as (H1 & H0).
  destruct (out_windowReset (snd (sampleCycle powf c g))).
  - destruct (H1 eq_refl) as (Hd & Hs). rewrite Hs in IH.
    cbn [spacedBy]. split; [lia|exact IH].
  - now rewrite (H0 eq_refl) in IH.
Qed.

End Resets.

(** ** More of the program on concrete runs *)

(** Devices at 0x76 and 0x77 only: both are found, and counted as 2. *)
Lemma i2c_scans_count_acknowledging_addresses_witness :
  (127 <= 127)%nat /\
  i2cScan (fun a => (a =? 118) || (a =? 119)) 127 = Some ([118; 119], 2).
Proof.
  split; [apply le_n|].
  exact (proj1 (i2c_scans_count_acknowledging_addresses
                  (fun a => (a =? 118) || (a =? 119)) 127 (le_n 127))).
Defined.

(** A blob of three bytes saved into an empty store, then loaded into an
    array that held other bytes. *)
Lemma saved_state_is_loaded_back_witness :
  (0 < 3)%nat /\
  List.length [Byte.x01; Byte.x02; Byte.x03] = 3%nat /\
  List.length [Byte.xff; Byte.xff; Byte.xff] = 3%nat /\
  Persist.loadState 3
    (Persist.saveState 3 [] (Some [Byte.x01; Byte.x02; Byte.x03]))
    [Byte.xff; Byte.xff; Byte.xff]
  = Some [Byte.x01; Byte.x02; Byte.x03].
Proof.
  split; [apply Nat.lt_0_succ|]. split; [reflexivity|]. split; [reflexivity|].
  exact (proj1 (saved_state_is_loaded_back 3 []
                  [Byte.x01; Byte.x02; Byte.x03]
                  [Byte.xff; Byte.xff; Byte.xff] None
                  (Nat.lt_0_succ 2) eq_refl eq_refl)).
Defined.

(** A stored blob of two bytes and an array of three. *)
Lemma loadState_guards_witness :
  List.length [Byte.xff; Byte.xff; Byte.xff] = 3%nat /\
  exists b,
    Persist.loadState 3
      [(Persist.PREF_NAMESPACE, Persist.PREF_KEY_STATE, [Byte.x01; Byte.x02])]
      [Byte.xff; Byte.xff; Byte.xff] = Some b /\
    List.length b = 3%nat /\
    firstn 2 b = [Byte.x01; Byte.x02].
Proof.
  split; [reflexivity|].
  exact (loadState_guards 3
           [(Persist.PREF_NAMESPACE, Persist.PREF_KEY_STATE,
             [Byte.x01; Byte.x02])]
           [Byte.xff; Byte.xff; Byte.xff] eq_refl).
Defined.

(** Baseline 100 kOhm, window minimum 90 kOhm, a reading of 80 kOhm ten
    seconds after the last reset. *)
Lemma window_minimum_tracks_readings_witness :
  let g := established_globals f100 (F32.of_Z 90) 150000 0 in
  let inp := cycle_at 160000 80000 0 true in
  F32.isnan
    (simpleVocIndex (out_vals (snd (sampleCycle powf_one inp g)))) = false /\
  F32.ltb (cycleGas inp)
    (gasMinWindow (baseline (fst (sampleCycle powf_one inp g)))) = false.
Proof.
  cbv zeta. split; [reflexivity|].
  exact (proj1 (window_minimum_tracks_readings powf_one
                  (cycle_at 160000 80000 0 true)
                  (established_globals f100 (F32.of_Z 90) 150000 0)
                  eq_refl)).
Defined.

(** The first cycle after the delay, reading 50 kOhm. *)
Lemma lock_cycle_reports_zero_witness :
  let inp := cycle_at 125000 50000 0 true in
  baselineEstablished (baseline initial_globals) = false /\
  BASELINE_DELAY_MS < now inp /\
  cycleGas inp = S754_finite false 13107200 (-18) /\
  simpleVocIndex (out_vals (snd (sampleCycle powf_one inp initial_globals)))
  = f0.
Proof.
  cbv zeta.
  assert (Ht : BASELINE_DELAY_MS < now (cycle_at 125000 50000 0 true))
    by reflexivity.
  split; [reflexivity|]. split; [exact Ht|]. split; [reflexivity|].
  exact (proj1 (proj2 (lock_cycle_reports_zero powf_one
                         (cycle_at 125000 50000 0 true) initial_globals
                         13107200 (-18) eq_refl Ht eq_refl))).
Defined.

(** The sensor reports 0 ohm at the locking cycle, 50 kOhm afterwards. *)
Lemma unusable_lock_reading_disables_index_witness :
  let c := cycle_at 125000 0 0 true in
  let post := [cycle_at 130000 50000 0 true] in
  baselineEstablished (baseline initial_globals) = false /\
  BASELINE_DELAY_MS < now c /\
  F32.leb (cycleGas c) f0 = true /\
  Forall (fun o => F32.isnan (simpleVocIndex (out_vals o)) = true /\
                   out_label o = label_text Building)
    (snd (runCycles powf_one (c :: post) initial_globals)).
Proof.
  cbv zeta.
  assert (Ht : BASELINE_DELAY_MS < now (cycle_at 125000 0 0 true))
    by reflexivity.
  split; [reflexivity|]. split; [exact Ht|]. split; [reflexivity|].
  exact (proj2 (proj2 (unusable_lock_reading_disables_index powf_one
                         (cycle_at 125000 0 0 true)
                         [cycle_at 130000 50000 0 true] initial_globals
                         eq_refl Ht (or_intror eq_refl)))).
Defined.

(** 5 is labelled no worse than 30. *)
Lemma classifyLabel_monotone_witness :
  F32.ltb (F32.of_Z 5) (F32.of_Z 30) = true /\
  (rank (classifyLabel (F32.of_Z 5)) <= rank (classifyLabel (F32.of_Z 30)))%nat.
Proof.
  split; [reflexivity|].
  exact (proj1 (classifyLabel_monotone (F32.of_Z 5) (F32.of_Z 30) eq_refl)).
Defined.

(** Button A at 7 s, one second after the last cycle: the pass samples. *)
Lemma refresh_is_forced_by_buttons_witness :
  let p := press_A 7000 50000 in
  let g := set_lastUpdate 6000 initial_globals in
  forced p = true /\
  usub (now p) (lastUpdate g) < UPDATE_INTERVAL_MS /\
  sampled (snd (loop powf_one p g)) = true.
Proof.
  cbv zeta. split; [reflexivity|]. split; [reflexivity|].
  apply (proj2 (proj1 (refresh_is_forced_by_buttons powf_one
                         (press_A 7000 50000)
                         (set_lastUpdate 6000 initial_globals)) eq_refl)).
  split; [reflexivity|]. cbv. discriminate.
Defined.

(** Data ready at 5 s, 7 s and 10 s: cycles at 5 s and 10 s. *)
Lemma sampling_cycles_are_spaced_witness :
  let ps := [cycle_at 5000 50000 0 true; cycle_at 7000 50000 0 true;
             cycle_at 10000 50000 0 true] in
  Forall (fun p => forced p = false) ps /\
  timesOf sampled ps (snd (runLoop powf_one ps initial_globals))
  = [5000; 10000] /\
  spacedBy UPDATE_INTERVAL_MS 0 [5000; 10000].
Proof.
  cbv zeta.
  assert (H : Forall (fun p => forced p = false)
                [cycle_at 5000 50000 0 true; cycle_at 7000 50000 0 true;
                 cycle_at 10000 50000 0 true])
    by (repeat constructor).
  split; [exact H|]. split; [reflexivity|].
  exact (sampling_cycles_are_spaced powf_one _ initial_globals H).
Defined.

(** Accuracy 3 at 300 s, 305 s and 600 s: saves at 300 s and 600 s. *)
Lemma saves_are_spaced_over_any_run_witness :
  spaced 0 [300000; 600000].
Proof.
  exact (saves_are_spaced_over_any_run powf_one
           [cycle_at 300000 50000 3 true; idle_at 302000;
            cycle_at 305000 50000 3 true; cycle_at 600000 50000 3 true]
           initial_globals).
Defined.

(** Cycles at 125 s and 130 s, with button C in between: one lock. *)
Lemma baseline_locked_at_most_once_over_any_run_witness :
  map pass_locked
    (snd (runLoop powf_one
            [cycle_at 125000 50000 0 true; press_C 127000;
             cycle_at 130000 40000 0 true] initial_globals))
  = [true; false; false] /\
  baselineEstablished
    (baseline (fst (runLoop powf_one
                      [cycle_at 125000 50000 0 true; press_C 127000;
                       cycle_at 130000 40000 0 true] initial_globals)))
  = true.
Proof.
  split; [reflexivity|].
  exact (proj2 (proj2 (baseline_locked_at_most_once_over_any_run powf_one
                         [cycle_at 125000 50000 0 true; press_C 127000;
                          cycle_at 130000 40000 0 true] initial_globals))).
Defined.

(** Two passes without data, a cycle, one more pass without data: the
    first pass warns, the others do not. *)
Lemma no_data_warning_is_given_once_witness :
  List.length
    (filter out_warned
       (snd (runLoop powf_one
               [idle_at 100; idle_at 200; cycle_at 5000 50000 0 true;
                idle_at 5100] initial_globals))) = 1%nat.
Proof.
  exact (proj1 (no_data_warning_is_given_once powf_one
                  [idle_at 100; idle_at 200; cycle_at 5000 50000 0 true;
                   idle_at 5100] initial_globals)).
Defined.

(** Baseline 100 kOhm: readings of 100 kOhm and of 0 give 0 and 100. *)
Lemma index_scale_endpoints_witness :
  let b := established_baseline f100 f100 0 in
  baselineEstablished b = true /\
  gasBaseline b = S754_finite false 13107200 (-17) /\
  fst (computeSimpleVocIndex f100 b) = f0 /\
  fst (computeSimpleVocIndex f0 b) = f100.
Proof.
  cbv zeta. split; [reflexivity|]. split; [reflexivity|].
  destruct (index_scale_endpoints (established_baseline f100 f100 0)
              13107200 (-17) false eq_refl eq_refl) as (H0 & _ & H1 & _).
  split; [exact H0|exact H1].
Defined.

(** Cycles every 20 s after the lock at 125 s: resets at 125 s and 165 s. *)
Lemma window_resets_are_spaced_witness :
  spacedBy (WINDOW_UPDATE_INTERVAL_MS + 1) 0 [125000; 165000].
Proof.
  exact (window_resets_are_spaced powf_one
           [cycle_at 125000 50000 0 true; cycle_at 145000 50000 0 true;
            cycle_at 165000 50000 0 true] initial_globals).
Defined.
